(** * Career-compass: the live-conversation audio session

    A shallow embedding of [src/components/LiveConvo.tsx]: the base64 and PCM
    helpers ([decode], [decodeAudioData], [encode]), the component's refs and
    React state, its callbacks ([cleanup], [startConversation], the session
    callbacks, [handleInterruptSpeech], [handleControlButtonClick]), the two
    effects that load and store the transcript, and what is rendered from the
    status ([StatusIndicator], [getButtonIcon]) and from the transcript.

    Conventions.
    - A JavaScript string is the list of its UTF-16 code units ([jsstring]).
      Text that is only ever a literal of the source (messages, storage keys,
      MIME types) is a Rocq [string].
    - A [Uint8Array] is a [list byte].  An [Int16Array] is a list of [Z] in
      the signed 16-bit range; a [Float32Array] is a list of rationals (every
      finite float is one; multiplying or dividing by 32768 is exact).
    - Times of the audio clock are rationals.
    - The platform (timers, media tracks, audio nodes, the network session,
      localStorage) is part of the state; every call into it is appended to a
      call log. *)

From Stdlib Require Import ZArith NArith QArith Qminmax Lia Lqa String Ascii List.
From Stdlib Require Import Strings.Byte.
From stdpp Require Import base option list strings gmap.

Close Scope Q_scope.
Local Open Scope N_scope.

(** ** Strings and exceptions *)

Abbreviation jsstring := (list N) (only parsing).

(** The code units of an ASCII literal. *)
Definition str (s : string) : jsstring :=
  map N_of_ascii (list_ascii_of_string s).

Inductive exn :=
| InvalidCharacterError   (* atob, btoa *)
| RangeError              (* typed-array view over a misaligned length *)
| NotSupportedError       (* createBuffer with no frame, no channel or no rate *)
| InvalidStateError.      (* closing a closed AudioContext *)

Inductive result (A : Type) :=
| Ok (a : A)
| Throw (e : exn).
Arguments Ok {A} a.
Arguments Throw {A} e.

Definition rbind {A B} (r : result A) (f : A -> result B) : result B :=
  match r with
  | Ok a => f a
  | Throw e => Throw e
  end.

(** ** The platform's base64: [btoa] and [atob] *)

Module Base64.

Definition pad : N := 61. (* '=' *)

(** The character of a 6-bit value, by the ranges of the alphabet
    [A-Z a-z 0-9 + /]. *)
Definition char_of (s : N) : N :=
  if s <? 26 then s + 65
  else if s <? 52 then s + 71
  else if s <? 62 then s - 4
  else if s =? 62 then 43
  else 47.

Definition index_of (c : N) : option N :=
  if (65 <=? c) && (c <=? 90) then Some (c - 65)
  else if (97 <=? c) && (c <=? 122) then Some (c - 71)
  else if (48 <=? c) && (c <=? 57) then Some (c + 4)
  else if c =? 43 then Some 62
  else if c =? 47 then Some 63
  else None.

(** Three bytes give four 6-bit values; a last group of one or two bytes
    gives two or three. *)
Fixpoint sextets (l : list N) : list N :=
  match l with
  | [] => []
  | [a] => [a / 4; (a mod 4) * 16]
  | [a; b] => [a / 4; (a mod 4) * 16 + b / 16; (b mod 16) * 4]
  | a :: b :: c :: r =>
      a / 4 :: (a mod 4) * 16 + b / 16 :: (b mod 16) * 4 + c / 64 :: c mod 64
        :: sextets r
  end.

Definition padding (len : nat) : list N :=
  match (len mod 3)%nat with
  | 1%nat => [pad; pad]
  | 2%nat => [pad]
  | _ => []
  end.

(** [btoa]: throws when a code unit does not fit a byte. *)
Definition btoa (binary : jsstring) : result jsstring :=
  if forallb (fun c => c <? 256) binary
  then Ok (map char_of (sextets binary) ++ padding (length binary))
  else Throw InvalidCharacterError.

Definition is_ascii_whitespace (c : N) : bool :=
  (c =? 9) || (c =? 10) || (c =? 12) || (c =? 13) || (c =? 32).

(** Removes a final [=] or [==]. *)
Fixpoint strip_padding (d : list N) : list N :=
  match d with
  | [] => []
  | x :: r =>
      if forallb (N.eqb pad) d && (length d <=? 2)%nat then []
      else x :: strip_padding r
  end.

Fixpoint indices (d : list N) : option (list N) :=
  match d with
  | [] => Some []
  | c :: r =>
      match index_of c, indices r with
      | Some s, Some l => Some (s :: l)
      | _, _ => None
      end
  end.

(** Four 6-bit values give three bytes; a last group of two or three gives
    one or two, its spare low bits dropped. *)
Fixpoint bytes_of (l : list N) : list N :=
  match l with
  | a :: b :: c :: d :: r =>
      a * 4 + b / 16 :: (b mod 16) * 16 + c / 4 :: (c mod 4) * 64 + d
        :: bytes_of r
  | [a; b; c] => [a * 4 + b / 16; (b mod 16) * 16 + c / 4]
  | [a; b] => [a * 4 + b / 16]
  | _ => []
  end.

(** [atob], the forgiving base64 decoding: white space is skipped, the
    padding of a string of length 4k is removed, a length of 4k+1 and a
    character outside the alphabet are errors. *)
Definition atob (data : jsstring) : result jsstring :=
  let d := filter (fun c => is_ascii_whitespace c = false) data in
  let d := if (length d mod 4 =? 0)%nat then strip_padding d else d in
  if (length d mod 4 =? 1)%nat then Throw InvalidCharacterError
  else match indices d with
       | Some sx => Ok (bytes_of sx)
       | None => Throw InvalidCharacterError
       end.

End Base64.

(** ** Typed arrays *)

Abbreviation Uint8Array := (list byte) (only parsing).
Abbreviation Int16Array := (list Z) (only parsing).
Abbreviation Float32Array := (list Q) (only parsing).

(** Storing a number into a [Uint8Array] keeps it modulo 256. *)
Definition to_uint8 (c : N) : byte :=
  match Byte.of_N (c mod 256) with
  | Some b => b
  | None => x00
  end.

(** Storing a number into an [Int16Array]: the fraction is dropped (towards
    zero) and the integer is kept modulo 2^16, in the signed range. *)
Definition wrap16 (z : Z) : Z :=
  ((z + 32768) mod 65536 - 32768)%Z.

Definition truncate (x : Q) : Z :=
  Z.quot (Qnum x) (Z.pos (Qden x)).

Definition to_int16 (x : Q) : Z := wrap16 (truncate x).

(** [new Int16Array(data.buffer)]: the bytes taken two by two, low byte
    first; a buffer of odd length is a RangeError. *)
Fixpoint int16_view (data : Uint8Array) : result Int16Array :=
  match data with
  | [] => Ok []
  | [_] => Throw RangeError
  | lo :: hi :: r =>
      rbind (int16_view r) (fun l =>
        Ok (wrap16 (Z.of_N (Byte.to_N lo) + 256 * Z.of_N (Byte.to_N hi)) :: l))
  end.

(** [new Uint8Array(int16.buffer)]: two bytes a sample, low byte first. *)
Definition uint8_view (samples : Int16Array) : Uint8Array :=
  flat_map (fun v => [to_uint8 (Z.to_N (v mod 256)); to_uint8 (Z.to_N ((v / 256) mod 256))])
           samples.

(** ** The helpers of the source *)

(** [decode]: [atob], then one byte a character. *)
Definition decode (base64 : jsstring) : result Uint8Array :=
  rbind (Base64.atob base64) (fun binaryString =>
    Ok (map to_uint8 binaryString)).

(** [encode]: the characters of the bytes appended one by one, then [btoa]. *)
Definition encode (bytes : Uint8Array) : result jsstring :=
  let binary := fold_left (fun binary b => binary ++ [Byte.to_N b]) bytes [] in
  Base64.btoa binary.

Record AudioBuffer := {
  numberOfChannels : nat;
  frames : nat;
  bufferRate : Z;
  channelData : list Float32Array
}.

(** [buffer.duration]: frames over sample rate, in seconds. *)
Definition duration (b : AudioBuffer) : Q :=
  (inject_Z (Z.of_nat (frames b)) / inject_Z (bufferRate b))%Q.

(** [decodeAudioData]: sample [i] of channel [c] is sample [i * numChannels + c]
    of the 16-bit view, over 32768.  [createBuffer] takes the integer part of
    the frame count and refuses a buffer without a frame or without a channel,
    and a sample rate that is not positive.  How far above zero the rates it
    accepts begin, and where they end, is the implementation's choice: every
    one accepts 8000 to 96000, and the component asks for 24000. *)
Definition decodeAudioData (data : Uint8Array) (sampleRate : Z) (numChannels : nat)
  : result AudioBuffer :=
  rbind (int16_view data) (fun dataInt16 =>
    let frameCount := (length dataInt16 / numChannels)%nat in
    if (frameCount =? 0)%nat || (numChannels =? 0)%nat || (sampleRate <=? 0)%Z
    then Throw NotSupportedError
    else
      Ok {| numberOfChannels := numChannels;
            frames := frameCount;
            bufferRate := sampleRate;
            channelData :=
              map (fun channel =>
                     map (fun i => (inject_Z (nth (i * numChannels + channel) dataInt16 0%Z)
                                    / 32768)%Q)
                         (seq 0 frameCount))
                  (seq 0 numChannels) |}).

(** ** The component's data *)

Inductive AIStatus := Idle | Connecting | Listening | Thinking | Speaking | Error.

#[global] Instance AIStatus_eq_dec : EqDecision AIStatus.
Proof. solve_decision. Defined.

Inductive Author := You | AI.

Record Transcription := { author : Author; text : jsstring }.

Inductive ContextState := suspended | running | closed.

Record AudioContext := { ctxId : Z; sampleRate : Z; ctxState : ContextState }.

(** A media stream is its tracks; a node, a track, a session and a timer are
    handles. *)
Abbreviation MediaStream := (list Z) (only parsing).

Record AudioBufferSourceNode := { srcId : Z; buffer : AudioBuffer }.

Record Blob := { data : jsstring; mimeType : string }.

(** What localStorage holds under a key: the JSON text of a transcript,
    written as the list it denotes, or a text that [JSON.parse] refuses. *)
Inductive stored :=
| Json (l : list Transcription)
| Text (t : jsstring).

Definition LIVE_CONVO_STORAGE_KEY : string := "careerCompassLiveConvoHistory".

(** Calls into the platform, and the writes of the status. *)
Inductive call :=
| ClearTimeout (id : Z)
| SetTimeout (id : Z) (ms : Q)
| TrackStop (track : Z)
| CreateMediaStreamSource (node : Z) (stream : MediaStream)
| CreateScriptProcessor (node : Z)
| Connect (from to : Z)
| Disconnect (node : Z)
| ContextClose (ctx : Z)
| Rejected (e : exn)
| SessionClose (session : Z)
| SendRealtimeInput (session : Z) (media : Blob)
| SourceStart (source : AudioBufferSourceNode) (when : Q)
| SourceStop (source : AudioBufferSourceNode)
| SetItem (key : string) (value : stored)
| ConsoleError (msg : string)
| SetAIStatus (status : AIStatus).

Record state := State {
  (* React state *)
  aiStatus : AIStatus;
  error : option string;
  transcription : list Transcription;
  (* refs *)
  inputAudioContextRef : option AudioContext;
  outputAudioContextRef : option AudioContext;
  sessionPromiseRef : option Z;
  mediaStreamRef : option MediaStream;
  scriptProcessorRef : option Z;
  sourcesRef : list AudioBufferSourceNode;
  currentInputTranscriptionRef : jsstring;
  currentOutputTranscriptionRef : jsstring;
  nextStartTimeRef : Q;
  aiSpeakingTimerRef : option Z;
  (* the platform: pending timers, the next unused handle, the store, the calls made *)
  timers : list Z;
  fresh : Z;
  localStorage : gmap string stored;
  calls : list call
}.

(** Field updates. *)
Definition set_aiStatus (v : AIStatus) (s : state) : state :=
  State v (error s) (transcription s) (inputAudioContextRef s) (outputAudioContextRef s)
    (sessionPromiseRef s) (mediaStreamRef s) (scriptProcessorRef s) (sourcesRef s)
    (currentInputTranscriptionRef s) (currentOutputTranscriptionRef s) (nextStartTimeRef s)
    (aiSpeakingTimerRef s) (timers s) (fresh s) (localStorage s) (calls s).
Definition set_error (v : option string) (s : state) : state :=
  State (aiStatus s) v (transcription s) (inputAudioContextRef s) (outputAudioContextRef s)
    (sessionPromiseRef s) (mediaStreamRef s) (scriptProcessorRef s) (sourcesRef s)
    (currentInputTranscriptionRef s) (currentOutputTranscriptionRef s) (nextStartTimeRef s)
    (aiSpeakingTimerRef s) (timers s) (fresh s) (localStorage s) (calls s).
Definition set_transcription (v : list Transcription) (s : state) : state :=
  State (aiStatus s) (error s) v (inputAudioContextRef s) (outputAudioContextRef s)
    (sessionPromiseRef s) (mediaStreamRef s) (scriptProcessorRef s) (sourcesRef s)
    (currentInputTranscriptionRef s) (currentOutputTranscriptionRef s) (nextStartTimeRef s)
    (aiSpeakingTimerRef s) (timers s) (fresh s) (localStorage s) (calls s).
Definition set_inputAudioContextRef (v : option AudioContext) (s : state) : state :=
  State (aiStatus s) (error s) (transcription s) v (outputAudioContextRef s)
    (sessionPromiseRef s) (mediaStreamRef s) (scriptProcessorRef s) (sourcesRef s)
    (currentInputTranscriptionRef s) (currentOutputTranscriptionRef s) (nextStartTimeRef s)
    (aiSpeakingTimerRef s) (timers s) (fresh s) (localStorage s) (calls s).
Definition set_outputAudioContextRef (v : option AudioContext) (s : state) : state :=
  State (aiStatus s) (error s) (transcription s) (inputAudioContextRef s) v
    (sessionPromiseRef s) (mediaStreamRef s) (scriptProcessorRef s) (sourcesRef s)
    (currentInputTranscriptionRef s) (currentOutputTranscriptionRef s) (nextStartTimeRef s)
    (aiSpeakingTimerRef s) (timers s) (fresh s) (localStorage s) (calls s).
Definition set_sessionPromiseRef (v : option Z) (s : state) : state :=
  State (aiStatus s) (error s) (transcription s) (inputAudioContextRef s)
    (outputAudioContextRef s) v (mediaStreamRef s) (scriptProcessorRef s) (sourcesRef s)
    (currentInputTranscriptionRef s) (currentOutputTranscriptionRef s) (nextStartTimeRef s)
    (aiSpeakingTimerRef s) (timers s) (fresh s) (localStorage s) (calls s).
Definition set_mediaStreamRef (v : option MediaStream) (s : state) : state :=
  State (aiStatus s) (error s) (transcription s) (inputAudioContextRef s)
    (outputAudioContextRef s) (sessionPromiseRef s) v (scriptProcessorRef s) (sourcesRef s)
    (currentInputTranscriptionRef s) (currentOutputTranscriptionRef s) (nextStartTimeRef s)
    (aiSpeakingTimerRef s) (timers s) (fresh s) (localStorage s) (calls s).
Definition set_scriptProcessorRef (v : option Z) (s : state) : state :=
  State (aiStatus s) (error s) (transcription s) (inputAudioContextRef s)
    (outputAudioContextRef s) (sessionPromiseRef s) (mediaStreamRef s) v (sourcesRef s)
    (currentInputTranscriptionRef s) (currentOutputTranscriptionRef s) (nextStartTimeRef s)
    (aiSpeakingTimerRef s) (timers s) (fresh s) (localStorage s) (calls s).
Definition set_sourcesRef (v : list AudioBufferSourceNode) (s : state) : state :=
  State (aiStatus s) (error s) (transcription s) (inputAudioContextRef s)
    (outputAudioContextRef s) (sessionPromiseRef s) (mediaStreamRef s) (scriptProcessorRef
    s) v (currentInputTranscriptionRef s) (currentOutputTranscriptionRef s)
    (nextStartTimeRef s) (aiSpeakingTimerRef s) (timers s) (fresh s) (localStorage s) (calls
    s).
Definition set_currentInputTranscriptionRef (v : jsstring) (s : state) : state :=
  State (aiStatus s) (error s) (transcription s) (inputAudioContextRef s)
    (outputAudioContextRef s) (sessionPromiseRef s) (mediaStreamRef s) (scriptProcessorRef
    s) (sourcesRef s) v (currentOutputTranscriptionRef s) (nextStartTimeRef s)
    (aiSpeakingTimerRef s) (timers s) (fresh s) (localStorage s) (calls s).
Definition set_currentOutputTranscriptionRef (v : jsstring) (s : state) : state :=
  State (aiStatus s) (error s) (transcription s) (inputAudioContextRef s)
    (outputAudioContextRef s) (sessionPromiseRef s) (mediaStreamRef s) (scriptProcessorRef
    s) (sourcesRef s) (currentInputTranscriptionRef s) v (nextStartTimeRef s)
    (aiSpeakingTimerRef s) (timers s) (fresh s) (localStorage s) (calls s).
Definition set_nextStartTimeRef (v : Q) (s : state) : state :=
  State (aiStatus s) (error s) (transcription s) (inputAudioContextRef s)
    (outputAudioContextRef s) (sessionPromiseRef s) (mediaStreamRef s) (scriptProcessorRef
    s) (sourcesRef s) (currentInputTranscriptionRef s) (currentOutputTranscriptionRef s) v
    (aiSpeakingTimerRef s) (timers s) (fresh s) (localStorage s) (calls s).
Definition set_aiSpeakingTimerRef (v : option Z) (s : state) : state :=
  State (aiStatus s) (error s) (transcription s) (inputAudioContextRef s)
    (outputAudioContextRef s) (sessionPromiseRef s) (mediaStreamRef s) (scriptProcessorRef
    s) (sourcesRef s) (currentInputTranscriptionRef s) (currentOutputTranscriptionRef s)
    (nextStartTimeRef s) v (timers s) (fresh s) (localStorage s) (calls s).
Definition set_timers (v : list Z) (s : state) : state :=
  State (aiStatus s) (error s) (transcription s) (inputAudioContextRef s)
    (outputAudioContextRef s) (sessionPromiseRef s) (mediaStreamRef s) (scriptProcessorRef
    s) (sourcesRef s) (currentInputTranscriptionRef s) (currentOutputTranscriptionRef s)
    (nextStartTimeRef s) (aiSpeakingTimerRef s) v (fresh s) (localStorage s) (calls s).
Definition set_fresh (v : Z) (s : state) : state :=
  State (aiStatus s) (error s) (transcription s) (inputAudioContextRef s)
    (outputAudioContextRef s) (sessionPromiseRef s) (mediaStreamRef s) (scriptProcessorRef
    s) (sourcesRef s) (currentInputTranscriptionRef s) (currentOutputTranscriptionRef s)
    (nextStartTimeRef s) (aiSpeakingTimerRef s) (timers s) v (localStorage s) (calls s).
Definition set_localStorage (v : gmap string stored) (s : state) : state :=
  State (aiStatus s) (error s) (transcription s) (inputAudioContextRef s)
    (outputAudioContextRef s) (sessionPromiseRef s) (mediaStreamRef s) (scriptProcessorRef
    s) (sourcesRef s) (currentInputTranscriptionRef s) (currentOutputTranscriptionRef s)
    (nextStartTimeRef s) (aiSpeakingTimerRef s) (timers s) (fresh s) v (calls s).
Definition set_calls (v : list call) (s : state) : state :=
  State (aiStatus s) (error s) (transcription s) (inputAudioContextRef s)
    (outputAudioContextRef s) (sessionPromiseRef s) (mediaStreamRef s) (scriptProcessorRef
    s) (sourcesRef s) (currentInputTranscriptionRef s) (currentOutputTranscriptionRef s)
    (nextStartTimeRef s) (aiSpeakingTimerRef s) (timers s) (fresh s) (localStorage s) v.

(** The component as first rendered over a given store. *)
Definition initial (store : gmap string stored) : state :=
  {| aiStatus := Idle; error := None; transcription := [];
     inputAudioContextRef := None; outputAudioContextRef := None;
     sessionPromiseRef := None; mediaStreamRef := None;
     scriptProcessorRef := None; sourcesRef := [];
     currentInputTranscriptionRef := []; currentOutputTranscriptionRef := [];
     nextStartTimeRef := 0%Q; aiSpeakingTimerRef := None;
     timers := []; fresh := 1%Z; localStorage := store; calls := [] |}.

(** ** Callbacks as state transformers that may throw

    A callback maps a state to a result and the state it leaves: what it did
    before throwing stays done. *)

Definition M (A : Type) : Type := state -> result A * state.

Definition ret {A} (a : A) : M A := fun s => (Ok a, s).

Definition bind {A B} (m : M A) (f : A -> M B) : M B :=
  fun s => match m s with
           | (Ok a, s') => f a s'
           | (Throw e, s') => (Throw e, s')
           end.

#[global] Instance M_ret : MRet M := @ret.
#[global] Instance M_bind : MBind M := fun A B f m => bind m f.

Definition gets {A} (f : state -> A) : M A := fun s => (Ok (f s), s).
Definition modify (f : state -> state) : M unit := fun s => (Ok tt, f s).
Definition lift {A} (r : result A) : M A := fun s => (r, s).

Definition try_catch (m : M unit) (handler : exn -> M unit) : M unit :=
  fun s => match m s with
           | (Ok a, s') => (Ok a, s')
           | (Throw e, s') => handler e s'
           end.

Definition when (b : bool) (m : M unit) : M unit :=
  if b then m else ret tt.

Fixpoint forEach {A} (l : list A) (f : A -> M unit) : M unit :=
  match l with
  | [] => ret tt
  | x :: r => f x;; forEach r f
  end.

Definition call_ (c : call) : M unit :=
  modify (fun s => set_calls (calls s ++ [c]) s).

(** A handle nobody holds yet. *)
Definition new_handle : M Z :=
  fun s => (Ok (fresh s), set_fresh (fresh s + 1)%Z s).

(** ** The platform *)

Definition clearTimeout (id : Z) : M unit :=
  call_ (ClearTimeout id);;
  modify (fun s => set_timers (filter (fun t => t ≠ id) (timers s)) s).

Definition setTimeout (ms : Q) : M Z :=
  id ← new_handle;
  call_ (SetTimeout id ms);;
  modify (fun s => set_timers (timers s ++ [id]) s);;
  mret id.

Definition newAudioContext (rate : Z) : M AudioContext :=
  id ← new_handle;
  mret {| ctxId := id; sampleRate := rate; ctxState := running |}.

(** [ctx.close()]: on a closed context the promise it returns is rejected;
    nobody awaits it, so the rejection is left unhandled. *)
Definition close (ctx : AudioContext) : M AudioContext :=
  match ctxState ctx with
  | closed => call_ (Rejected InvalidStateError);; mret ctx
  | _ => call_ (ContextClose (ctxId ctx));;
         mret {| ctxId := ctxId ctx; sampleRate := sampleRate ctx; ctxState := closed |}
  end.

Definition startLiveSession : M Z := new_handle.

Definition createBufferSource (b : AudioBuffer) : M AudioBufferSourceNode :=
  id ← new_handle;
  mret {| srcId := id; buffer := b |}.

(** JavaScript truthiness of the values the code tests. *)
Definition truthy_number (n : Z) : bool := negb (n =? 0)%Z.
Definition truthy_string (t : jsstring) : bool :=
  match t with [] => false | _ => true end.

(** [String.prototype.trim]: white space and line terminators. *)
Definition is_white_space (c : N) : bool :=
  ((9 <=? c) && (c <=? 13)) || (c =? 32) || (c =? 160) || (c =? 5760)
  || ((8192 <=? c) && (c <=? 8202)) || (c =? 8232) || (c =? 8233)
  || (c =? 8239) || (c =? 8287) || (c =? 12288) || (c =? 65279).

Fixpoint trimStart (t : jsstring) : jsstring :=
  match t with
  | [] => []
  | c :: r => if is_white_space c then trimStart r else t
  end.

Definition trim (t : jsstring) : jsstring :=
  rev (trimStart (rev (trimStart t))).

(** ** React state *)

Definition setAIStatus (status : AIStatus) : M unit :=
  call_ (SetAIStatus status);;
  modify (set_aiStatus status).

Definition setError (e : option string) : M unit :=
  modify (set_error e).

(** The effect on [transcription]: a non-empty list is written to the store. *)
Definition store_effect : M unit :=
  l ← gets transcription;
  when (0 <? length l)%nat
    (call_ (SetItem LIVE_CONVO_STORAGE_KEY (Json l));;
     modify (fun s => set_localStorage (<[LIVE_CONVO_STORAGE_KEY := Json l]> (localStorage s)) s)).

(** [setTranscription]: the state is replaced and the effect depending on it
    runs. *)
Definition setTranscription (f : list Transcription -> list Transcription) : M unit :=
  modify (fun s => set_transcription (f (transcription s)) s);;
  store_effect.

(** ** [cleanup] *)

Definition cleanup : M unit :=
  timer ← gets aiSpeakingTimerRef;
  match timer with
  | Some id => when (truthy_number id) (clearTimeout id)
  | None => mret tt
  end;;
  stream ← gets mediaStreamRef;
  match stream with
  | Some tracks =>
      forEach tracks (fun track => call_ (TrackStop track));;
      modify (set_mediaStreamRef None)
  | None => mret tt
  end;;
  processor ← gets scriptProcessorRef;
  match processor with
  | Some node =>
      call_ (Disconnect node);;
      modify (set_scriptProcessorRef None)
  | None => mret tt
  end;;
  input ← gets inputAudioContextRef;
  match input with
  | Some ctx =>
      match ctxState ctx with
      | closed => mret tt
      | _ => ctx' ← close ctx; modify (set_inputAudioContextRef (Some ctx'))
      end
  | None => mret tt
  end;;
  output ← gets outputAudioContextRef;
  match output with
  | Some ctx =>
      match ctxState ctx with
      | closed => mret tt
      | _ => ctx' ← close ctx; modify (set_outputAudioContextRef (Some ctx'))
      end
  | None => mret tt
  end;;
  promise ← gets sessionPromiseRef;
  match promise with
  | Some session => call_ (SessionClose session)
  | None => mret tt
  end;;
  modify (set_sessionPromiseRef None);;
  sources ← gets sourcesRef;
  forEach sources (fun source => call_ (SourceStop source));;
  modify (set_sourcesRef []);;
  setAIStatus Idle.

(** ** The session callbacks *)

(** What [onmessage] reads of a message.  A transcription is given by its
    text, the audio by the data of the first part of the model's turn.  A
    transcription without a text, and a model's turn without [parts] (for
    which line 178 throws), are not among the messages modelled. *)
Record LiveServerMessage := {
  inputTranscription : option jsstring;
  outputTranscription : option jsstring;
  turnComplete : bool;
  (* serverContent?.modelTurn?.parts[0]?.inlineData?.data *)
  audioData : option jsstring;
  interrupted : bool
}.

(** [onaudioprocess], set up by [onopen]. *)
Definition onaudioprocess (inputData : Float32Array) : M unit :=
  let int16 := map (fun x => to_int16 (x * 32768)%Q) inputData in
  data ← lift (encode (uint8_view int16));
  let pcmBlob := {| data := data; mimeType := "audio/pcm;rate=16000" |} in
  promise ← gets sessionPromiseRef;
  match promise with
  | Some session => call_ (SendRealtimeInput session pcmBlob)
  | None => mret tt
  end.

Definition onopen : M unit :=
  setAIStatus Listening;;
  stream ← gets mediaStreamRef;
  source ← new_handle;
  call_ (CreateMediaStreamSource source (default [] stream));;
  scriptProcessor ← new_handle;
  call_ (CreateScriptProcessor scriptProcessor);;
  modify (set_scriptProcessorRef (Some scriptProcessor));;
  call_ (Connect source scriptProcessor);;
  input ← gets inputAudioContextRef;
  call_ (Connect scriptProcessor (from_option ctxId 0%Z input)).

(** [onmessage], block by block; [now] is the output context's
    [currentTime] when the message is handled. *)

(** Lines 158-163: the partial transcriptions are appended. *)
Definition onmessage_transcriptions (message : LiveServerMessage) : M unit :=
  match inputTranscription message with
  | Some t =>
      modify (fun s => set_currentInputTranscriptionRef (currentInputTranscriptionRef s ++ t) s)
  | None => mret tt
  end;;
  match outputTranscription message with
  | Some t =>
      modify (fun s => set_currentOutputTranscriptionRef (currentOutputTranscriptionRef s ++ t) s)
  | None => mret tt
  end.

(** Lines 164-176: the turn is flushed to the history. *)
Definition onmessage_turnComplete (message : LiveServerMessage) : M unit :=
  when (turnComplete message)
    (userInput ← gets (fun s => trim (currentInputTranscriptionRef s));
     aiOutput ← gets (fun s => trim (currentOutputTranscriptionRef s));
     setTranscription (fun prev =>
       let newHistory := prev in
       let newHistory :=
         if truthy_string userInput
         then newHistory ++ [{| author := You; text := userInput |}] else newHistory in
       let newHistory :=
         if truthy_string aiOutput
         then newHistory ++ [{| author := AI; text := aiOutput |}] else newHistory in
       newHistory);;
     modify (set_currentInputTranscriptionRef []);;
     modify (set_currentOutputTranscriptionRef []);;
     setAIStatus Thinking).

(** Lines 178-198: an audio chunk is decoded and scheduled. *)
Definition onmessage_audio (now : Q) (message : LiveServerMessage) : M unit :=
  output ← gets outputAudioContextRef;
  match audioData message, output with
  | Some audioData, Some _ =>
      when (truthy_string audioData)
        (setAIStatus Speaking;;
         timer ← gets aiSpeakingTimerRef;
         match timer with
         | Some id => when (truthy_number id) (clearTimeout id)
         | None => mret tt
         end;;
         modify (fun s => set_nextStartTimeRef (Qmax (nextStartTimeRef s) now) s);;
         bytes ← lift (decode audioData);
         audioBuffer ← lift (decodeAudioData bytes 24000 1);
         source ← createBufferSource audioBuffer;
         start ← gets nextStartTimeRef;
         call_ (SourceStart source start);;
         modify (fun s => set_nextStartTimeRef (nextStartTimeRef s + duration audioBuffer)%Q s);;
         modify (fun s => set_sourcesRef (sourcesRef s ++ [source]) s);;
         id ← setTimeout (duration audioBuffer * 1000)%Q;
         modify (set_aiSpeakingTimerRef (Some id)))
  | _, _ => mret tt
  end.

(** Lines 200-206: the remote side interrupts. *)
Definition onmessage_interrupted (message : LiveServerMessage) : M unit :=
  when (interrupted message)
    (timer ← gets aiSpeakingTimerRef;
     match timer with
     | Some id => when (truthy_number id) (clearTimeout id)
     | None => mret tt
     end;;
     sources ← gets sourcesRef;
     forEach sources (fun source => call_ (SourceStop source));;
     modify (set_sourcesRef []);;
     modify (set_nextStartTimeRef 0%Q);;
     setAIStatus Listening).

Definition onmessage (now : Q) (message : LiveServerMessage) : M unit :=
  onmessage_transcriptions message;;
  onmessage_turnComplete message;;
  onmessage_audio now message;;
  onmessage_interrupted message.

Definition onerror : M unit :=
  call_ (ConsoleError "Live session error:");;
  setError (Some "A connection error occurred. Please try again."%string);;
  setAIStatus Error;;
  cleanup.

Definition onclose : M unit := cleanup.

(** The callback of the timer set by [onmessage]. *)
Definition onSpeakingTimer : M unit := setAIStatus Listening.

(** The ['ended'] listener of a source. *)
Definition onended (source : Z) : M unit :=
  modify (fun s => set_sourcesRef (filter (fun n => srcId n ≠ source) (sourcesRef s)) s).

(** ** [startConversation]

    [microphone] is the answer of [getUserMedia]: a stream, or the rejection
    of the request. *)
Definition startConversation (microphone : result MediaStream) : M unit :=
  setAIStatus Connecting;;
  setError None;;
  setTranscription (fun _ => []);;
  modify (set_nextStartTimeRef 0%Q);;
  try_catch
    (stream ← lift microphone;
     modify (set_mediaStreamRef (Some stream));;
     input ← newAudioContext 16000;
     modify (set_inputAudioContextRef (Some input));;
     output ← newAudioContext 24000;
     modify (set_outputAudioContextRef (Some output));;
     session ← startLiveSession;
     modify (set_sessionPromiseRef (Some session)))
    (fun err =>
       call_ (ConsoleError "Failed to start conversation:");;
       setError (Some "Could not access microphone. Please grant permission and try again."%string);;
       setAIStatus Error;;
       cleanup).

(** ** The effects and the button *)

(** The mount effect: the stored transcript, when there is one, is loaded. *)
Definition mount : M unit :=
  saved ← gets (fun s => localStorage s !! LIVE_CONVO_STORAGE_KEY);
  match saved with
  | Some (Json l) => setTranscription (fun _ => l)
  | Some (Text t) =>
      when (truthy_string t) (call_ (ConsoleError "Failed to load transcription"))
  | None => mret tt
  end.

Definition unmount : M unit := cleanup.

Definition isSessionActive (status : AIStatus) : bool :=
  match status with
  | Idle | Error | Connecting => false
  | _ => true
  end.

Definition handleInterruptSpeech : M unit :=
  timer ← gets aiSpeakingTimerRef;
  match timer with
  | Some id =>
      when (truthy_number id)
        (clearTimeout id;; modify (set_aiSpeakingTimerRef None))
  | None => mret tt
  end;;
  sources ← gets sourcesRef;
  forEach sources (fun source => call_ (SourceStop source));;
  modify (set_sourcesRef []);;
  modify (set_nextStartTimeRef 0%Q);;
  setAIStatus Listening.

Definition handleControlButtonClick (microphone : result MediaStream) : M unit :=
  status ← gets aiStatus;
  match status with
  | Speaking => handleInterruptSpeech
  | _ => if isSessionActive status then cleanup else startConversation microphone
  end.

(** ** The event loop

    Callbacks run one at a time.  The button is disabled while connecting; the
    session delivers [onopen] and [onmessage] only while the component holds
    it; a timer fires only while it is pending, and the audio callback only
    while the processor node is held. *)

Inductive event :=
| Mount
| Unmount
| Click (microphone : result MediaStream)
| SessionOpen
| SessionMessage (now : Q) (message : LiveServerMessage)
| SessionError
| SessionClosed
| AudioProcess (inputData : Float32Array)
| TimerFired (id : Z)
| SourceEnded (source : Z).

Definition handler (ev : event) : M unit :=
  match ev with
  | Mount => mount
  | Unmount => unmount
  | Click microphone => handleControlButtonClick microphone
  | SessionOpen => onopen
  | SessionMessage now message => onmessage now message
  | SessionError => onerror
  | SessionClosed => onclose
  | AudioProcess inputData => onaudioprocess inputData
  | TimerFired id =>
      modify (fun s => set_timers (filter (fun t => t ≠ id) (timers s)) s);;
      onSpeakingTimer
  | SourceEnded source => onended source
  end.

Definition enabled (s : state) (ev : event) : bool :=
  match ev with
  | Click _ => negb (bool_decide (aiStatus s = Connecting))
  | SessionOpen | SessionMessage _ _ => bool_decide (is_Some (sessionPromiseRef s))
  | AudioProcess _ => bool_decide (is_Some (scriptProcessorRef s))
  | TimerFired id => bool_decide (id ∈ timers s)
  | _ => true
  end.

(** A callback that throws leaves the state it reached. *)
Definition step (s : state) (ev : event) : state :=
  if enabled s ev then snd (handler ev s) else s.

Definition run (s : state) (evs : list event) : state :=
  fold_left step evs s.

(** The statuses written so far, the initial one first, repeats dropped. *)
Definition status_of (c : call) : option AIStatus :=
  match c with
  | SetAIStatus status => Some status
  | _ => None
  end.

Definition status_writes (s : state) : list AIStatus :=
  omap status_of (calls s).

Fixpoint dedup_adjacent (prev : AIStatus) (l : list AIStatus) : list AIStatus :=
  match l with
  | [] => []
  | st :: r =>
      if bool_decide (st = prev) then dedup_adjacent prev r
      else st :: dedup_adjacent st r
  end.

Definition status_trace (s : state) : list AIStatus :=
  Idle :: dedup_adjacent Idle (status_writes s).

(** ** What the callbacks leave, in closed form *)

(** The calls made between two states of one run. *)
Definition since (s s' : state) : list call :=
  drop (length (calls s)) (calls s').

Definition close_mark (c : option AudioContext) : option AudioContext :=
  match c with
  | Some ctx => Some {| ctxId := ctxId ctx; sampleRate := sampleRate ctx; ctxState := closed |}
  | None => None
  end.

Definition close_calls (c : option AudioContext) : list call :=
  match c with
  | Some ctx =>
      match ctxState ctx with
      | closed => []
      | _ => [ContextClose (ctxId ctx)]
      end
  | None => []
  end.

Definition clear_calls (timer : option Z) : list call :=
  match timer with
  | Some id => if truthy_number id then [ClearTimeout id] else []
  | None => []
  end.

Definition cleared (timer : option Z) (pending : list Z) : list Z :=
  match timer with
  | Some id => if truthy_number id then filter (fun t => t ≠ id) pending else pending
  | None => pending
  end.

(** The calls of one [cleanup], in the order of the source. *)
Definition cleanup_calls (s : state) : list call :=
  clear_calls (aiSpeakingTimerRef s)
  ++ map TrackStop (default [] (mediaStreamRef s))
  ++ from_option (fun node => [Disconnect node]) [] (scriptProcessorRef s)
  ++ close_calls (inputAudioContextRef s)
  ++ close_calls (outputAudioContextRef s)
  ++ from_option (fun session => [SessionClose session]) [] (sessionPromiseRef s)
  ++ map SourceStop (sourcesRef s)
  ++ [SetAIStatus Idle].

(** The state one [cleanup] leaves. *)
Definition cleaned (s : state) : state :=
  {| aiStatus := Idle; error := error s; transcription := transcription s;
     inputAudioContextRef := close_mark (inputAudioContextRef s);
     outputAudioContextRef := close_mark (outputAudioContextRef s);
     sessionPromiseRef := None; mediaStreamRef := None;
     scriptProcessorRef := None; sourcesRef := [];
     currentInputTranscriptionRef := currentInputTranscriptionRef s;
     currentOutputTranscriptionRef := currentOutputTranscriptionRef s;
     nextStartTimeRef := nextStartTimeRef s;
     aiSpeakingTimerRef := aiSpeakingTimerRef s;
     timers := cleared (aiSpeakingTimerRef s) (timers s);
     fresh := fresh s; localStorage := localStorage s;
     calls := calls s ++ cleanup_calls s |}.

(** The four blocks of [onmessage], as the states they leave. *)

Definition hear (message : LiveServerMessage) (s : state) : state :=
  let s :=
    match inputTranscription message with
    | Some t => set_currentInputTranscriptionRef (currentInputTranscriptionRef s ++ t) s
    | None => s
    end in
  match outputTranscription message with
  | Some t => set_currentOutputTranscriptionRef (currentOutputTranscriptionRef s ++ t) s
  | None => s
  end.

(** The entries of a turn: the user's text, then the model's, each only when
    it is not empty. *)
Definition turn_entries (userInput aiOutput : jsstring) : list Transcription :=
  (if truthy_string userInput then [{| author := You; text := userInput |}] else [])
  ++ (if truthy_string aiOutput then [{| author := AI; text := aiOutput |}] else []).

Definition stored_with (history : list Transcription) (s : state) : state :=
  if (0 <? length history)%nat
  then set_localStorage (<[LIVE_CONVO_STORAGE_KEY := Json history]> (localStorage s))
         (set_calls (calls s ++ [SetItem LIVE_CONVO_STORAGE_KEY (Json history)]) s)
  else s.

Definition flush (s : state) : state :=
  let history :=
    transcription s
    ++ turn_entries (trim (currentInputTranscriptionRef s))
                    (trim (currentOutputTranscriptionRef s)) in
  let s := stored_with history (set_transcription history s) in
  set_aiStatus Thinking
    (set_calls (calls s ++ [SetAIStatus Thinking])
       (set_currentOutputTranscriptionRef [] (set_currentInputTranscriptionRef [] s))).

(** The state when the decoding of a chunk starts. *)
Definition speak (now : Q) (s : state) : state :=
  set_nextStartTimeRef (Qmax (nextStartTimeRef s) now)
    (set_timers (cleared (aiSpeakingTimerRef s) (timers s))
       (set_aiStatus Speaking
          (set_calls (calls s ++ SetAIStatus Speaking :: clear_calls (aiSpeakingTimerRef s)) s))).

(** The state once the decoded chunk is scheduled. *)
Definition play (audioBuffer : AudioBuffer) (s : state) : state :=
  let source := {| srcId := fresh s; buffer := audioBuffer |} in
  let id := (fresh s + 1)%Z in
  set_aiSpeakingTimerRef (Some id)
    (set_timers (timers s ++ [id])
       (set_fresh (fresh s + 2)%Z
          (set_sourcesRef (sourcesRef s ++ [source])
             (set_nextStartTimeRef (nextStartTimeRef s + duration audioBuffer)%Q
                (set_calls (calls s ++ [SourceStart source (nextStartTimeRef s);
                                        SetTimeout id (duration audioBuffer * 1000)%Q]) s))))).

Definition interrupt (s : state) : state :=
  set_aiStatus Listening
    (set_nextStartTimeRef 0%Q
       (set_sourcesRef []
          (set_timers (cleared (aiSpeakingTimerRef s) (timers s))
             (set_calls (calls s ++ clear_calls (aiSpeakingTimerRef s)
                                 ++ map SourceStop (sourcesRef s)
                                 ++ [SetAIStatus Listening]) s)))).

(** The buffer a message's audio decodes to, when it carries audio. *)
Definition decoded (message : LiveServerMessage) : option (result AudioBuffer) :=
  match audioData message with
  | Some base64 =>
      if truthy_string base64
      then Some (rbind (decode base64) (fun bytes => decodeAudioData bytes 24000 1))
      else None
  | None => None
  end.

(** The sources a list of calls stops. *)
Definition stopped (l : list call) : list AudioBufferSourceNode :=
  omap (fun c => match c with SourceStop source => Some source | _ => None end) l.

(** ** The playback schedule *)

(** The start time and the duration of every buffer started so far. *)
Definition scheduled (s : state) : list (Q * Q) :=
  omap (fun c => match c with
                 | SourceStart source start => Some (start, duration (buffer source))
                 | _ => None
                 end) (calls s).

(** The audio chunk a message carries, as the clock reading at its arrival
    and the duration of its decoded buffer. *)
Definition chunk_of (arrival : Q * LiveServerMessage) : list (Q * Q) :=
  match decoded arrival.2 with
  | Some (Ok audioBuffer) => [(arrival.1, duration audioBuffer)]
  | _ => []
  end.

(** The schedule as the specification words it: each chunk starts at the
    later of the cursor and the clock, and moves the cursor by its duration. *)
Fixpoint plan (cursor : Q) (chunks : list (Q * Q)) : list (Q * Q) :=
  match chunks with
  | [] => []
  | (now, length) :: rest =>
      let start := Qmax cursor now in
      (start, length) :: plan (start + length)%Q rest
  end.

Fixpoint plan_cursor (cursor : Q) (chunks : list (Q * Q)) : Q :=
  match chunks with
  | [] => cursor
  | (now, length) :: rest => plan_cursor (Qmax cursor now + length)%Q rest
  end.

(** Messages handled one after the other, up to the first that throws. *)
Definition handle_all (arrivals : list (Q * LiveServerMessage)) : M unit :=
  forEach arrivals (fun arrival => onmessage arrival.1 arrival.2).

(** A sample of a playback buffer is in range. *)
Definition in_unit_range (x : Q) : Prop := (-1 <= x)%Q /\ (x < 1)%Q.

(** ** The session invariant

    At most the timer the ref names is pending; a pending timer and an active
    status both mean that the session is held. *)
Definition session_inv (s : state) : Prop :=
  (isSessionActive (aiStatus s) = true -> is_Some (sessionPromiseRef s)) /\
  (timers s = [] \/
   exists id, timers s = [id] /\ aiSpeakingTimerRef s = Some id /\ id ≠ 0%Z /\
              is_Some (sessionPromiseRef s)) /\
  (1 <= fresh s)%Z.

(** A non-empty transcript is the one in the store. *)
Definition stored_inv (s : state) : Prop :=
  transcription s ≠ [] ->
  localStorage s !! LIVE_CONVO_STORAGE_KEY = Some (Json (transcription s)).

(** ** Sample inputs *)

Definition no_content : LiveServerMessage :=
  {| inputTranscription := None; outputTranscription := None; turnComplete := false;
     audioData := None; interrupted := false |}.

Definition with_input (t : jsstring) (m : LiveServerMessage) : LiveServerMessage :=
  {| inputTranscription := Some t; outputTranscription := outputTranscription m;
     turnComplete := turnComplete m; audioData := audioData m;
     interrupted := interrupted m |}.

Definition with_audio (base64 : jsstring) (m : LiveServerMessage) : LiveServerMessage :=
  {| inputTranscription := inputTranscription m; outputTranscription := outputTranscription m;
     turnComplete := turnComplete m; audioData := Some base64;
     interrupted := interrupted m |}.

Definition with_turnComplete (m : LiveServerMessage) : LiveServerMessage :=
  {| inputTranscription := inputTranscription m; outputTranscription := outputTranscription m;
     turnComplete := true; audioData := audioData m; interrupted := interrupted m |}.

Definition with_interrupted (m : LiveServerMessage) : LiveServerMessage :=
  {| inputTranscription := inputTranscription m; outputTranscription := outputTranscription m;
     turnComplete := turnComplete m; audioData := audioData m; interrupted := true |}.

(** Two samples, 0 and 32767, as base64. *)
Definition two_samples : jsstring := str "AAD/fw==".

(** A session that is open and listening. *)
Definition listening_session : state :=
  run (initial ∅) [Mount; Click (Ok [70%Z]); SessionOpen].

(** The same session while its first audio chunk plays. *)
Definition speaking_session : state :=
  run listening_session [SessionMessage 0%Q (with_audio two_samples no_content)].

(** ** Turns *)

(** A message that only carries an audio chunk that decodes. *)
Definition audio_only (arrival : Q * LiveServerMessage) : Prop :=
  turnComplete arrival.2 = false /\ interrupted arrival.2 = false /\
  exists audioBuffer, decoded arrival.2 = Some (Ok audioBuffer).

(** A message that only closes the turn. *)
Definition turn_end (message : LiveServerMessage) : Prop :=
  turnComplete message = true /\ interrupted message = false /\ decoded message = None.

Definition messages (arrivals : list (Q * LiveServerMessage)) : list event :=
  map (fun arrival => SessionMessage arrival.1 arrival.2) arrivals.

(** One full turn: the session starts and opens, the user's words are
    transcribed, the reply arrives as one audio chunk, the turn is closed, the
    playback timer elapses. *)
Definition full_turn : list event :=
  [Mount; Click (Ok [70%Z]); SessionOpen;
   SessionMessage 0%Q (with_input (str "hello") no_content);
   SessionMessage 0%Q (with_audio two_samples no_content);
   SessionMessage 0%Q (with_turnComplete no_content);
   TimerFired 7].

(** ** What is rendered *)

(** [StatusIndicator]: the line under the title, or the error box with the
    stored message. *)
Inductive indicator :=
| Line (text : string)
| ErrorBox (message : option string).

Definition StatusIndicator (status : AIStatus) (error : option string) : indicator :=
  match status with
  | Connecting => Line "Connecting to AI Coach..."
  | Listening => Line "Listening..."
  | Thinking => Line "AI is thinking..."
  | Speaking => Line "AI is speaking..."
  | Error => ErrorBox error
  | Idle => Line "Press the microphone to start."
  end.

Inductive icon := Spinner | StopIcon | MicOffIcon | MicIcon.

Definition getButtonIcon (status : AIStatus) : icon :=
  if bool_decide (status = Connecting) then Spinner
  else if bool_decide (status = Speaking) then StopIcon
  else if isSessionActive status then MicOffIcon
  else MicIcon.

(** The entries the transcript pane shows: those with a text. *)
Definition rendered (history : list Transcription) : list Transcription :=
  filter (fun entry => truthy_string (text entry) = true) history.

(** ** Released resources *)


(** The buffers a list of calls starts, each with its start time and its
    duration. *)
Definition starts (l : list call) : list (Q * Q) :=
  omap (fun c => match c with
                 | SourceStart source start => Some (start, duration (buffer source))
                 | _ => None
                 end) l.

(** The delays of the timeouts asked for, in milliseconds. *)
Definition timeouts (l : list call) : list Q :=
  omap (fun c => match c with SetTimeout _ ms => Some ms | _ => None end) l.

(** ** The callbacks in any order

    The event loop above runs [startConversation] in one piece and lets the
    session call back only while the component holds it.  The source does
    neither: [startConversation] gives way at [await getUserMedia] (line 127)
    and goes on when the request is answered, and [cleanup] only asks for the
    session to be closed, so that [onopen], [onmessage], [onerror] and [onclose]
    can still be called afterwards.  Here every callback may run at any time,
    one at a time ([onmessage] is back from its [await] before the next runs);
    only the button's [disabled] and the pending of a timer are kept. *)

(** Lines 121-124: [startConversation] up to the [await]. *)
Definition startConversation_begin : M unit :=
  setAIStatus Connecting;;
  setError None;;
  setTranscription (fun _ => []);;
  modify (set_nextStartTimeRef 0%Q).

(** Lines 126-223: [startConversation] from the answer of [getUserMedia] on. *)
Definition startConversation_resume (microphone : result MediaStream) : M unit :=
  try_catch
    (stream ← lift microphone;
     modify (set_mediaStreamRef (Some stream));;
     input ← newAudioContext 16000;
     modify (set_inputAudioContextRef (Some input));;
     output ← newAudioContext 24000;
     modify (set_outputAudioContextRef (Some output));;
     session ← startLiveSession;
     modify (set_sessionPromiseRef (Some session)))
    (fun err =>
       call_ (ConsoleError "Failed to start conversation:");;
       setError (Some "Could not access microphone. Please grant permission and try again."%string);;
       setAIStatus Error;;
       cleanup).

(** [handleControlButtonClick] up to its return: a conversation it starts is
    left waiting for the microphone. *)
Definition handleControlButtonClick_begin : M unit :=
  status ← gets aiStatus;
  match status with
  | Speaking => handleInterruptSpeech
  | _ => if isSessionActive status then cleanup else startConversation_begin
  end.

Inductive callback :=
| Mounted
| Unmounted
| Clicked
| MicrophoneAnswered (microphone : result MediaStream)
| Opened
| Received (now : Q) (message : LiveServerMessage)
| Failed
| Closed
| Captured (inputData : Float32Array)
| Elapsed (id : Z)
| Ended (source : Z).

Definition react (s : state) (cb : callback) : state :=
  match cb with
  | Mounted => (mount s).2
  | Unmounted => (unmount s).2
  | Clicked =>
      if bool_decide (aiStatus s = Connecting) then s
      else (handleControlButtonClick_begin s).2
  | MicrophoneAnswered microphone => (startConversation_resume microphone s).2
  | Opened => (onopen s).2
  | Received now message => (onmessage now message s).2
  | Failed => (onerror s).2
  | Closed => (onclose s).2
  | Captured inputData => (onaudioprocess inputData s).2
  | Elapsed id =>
      if bool_decide (id ∈ timers s) then (handler (TimerFired id) s).2 else s
  | Ended source => (onended source s).2
  end.

(** The state after the callbacks [cbs], from the first render on. *)
Definition reach (store : gmap string stored) (cbs : list callback) : state :=
  fold_left react cbs (initial store).

(** At most the timer the ref names is pending. *)
Definition timer_inv (s : state) : Prop :=
  (timers s = [] \/
   exists id, timers s = [id] /\ aiSpeakingTimerRef s = Some id /\ id ≠ 0%Z) /\
  (1 <= fresh s)%Z.

(** The user stops a conversation and starts the next one; the [onclose] of
    the stopped session is called while the new [startConversation] waits for
    the microphone. *)
Definition stale_close : list callback :=
  [Mounted; Clicked; MicrophoneAnswered (Ok [70%Z]); Opened;
   Clicked; Clicked; Closed; MicrophoneAnswered (Ok [71%Z])].

(** * Properties *)

(** ** Base64 *)

Module Base64Facts.
Import Base64.

Lemma list_ind3 {A} (P : list A -> Prop) :
  P [] -> (forall a, P [a]) -> (forall a b, P [a; b]) ->
  (forall a b c r, P r -> P (a :: b :: c :: r)) ->
  forall l, P l.
Proof.
  intros H0 H1 H2 H3.
  fix IH 1.
  intros [|a [|b [|c r]]];
    [exact H0 | exact (H1 a) | exact (H2 a b) | exact (H3 a b c r (IH r))].
Qed.

Lemma index_of_char_of s : s < 64 -> index_of (char_of s) = Some s.
Proof.
  intros Hs. unfold index_of, char_of.
  repeat match goal with
         | |- context [N.ltb ?a ?b] => destruct (N.ltb_spec a b)
         | |- context [N.leb ?a ?b] => destruct (N.leb_spec a b)
         | |- context [N.eqb ?a ?b] => destruct (N.eqb_spec a b)
         end; simpl; try (f_equal; lia); try lia.
Qed.

Lemma char_of_plain s : char_of s <> pad /\ is_ascii_whitespace (char_of s) = false.
Proof.
  unfold is_ascii_whitespace, char_of, pad.
  repeat match goal with
         | |- context [N.ltb ?a ?b] => destruct (N.ltb_spec a b)
         | |- context [N.eqb ?a ?b] => destruct (N.eqb_spec a b)
         end; simpl; split; try lia; try reflexivity.
Qed.

Ltac divmod := zify; Z.to_euclidean_division_equations; lia.

Ltac split_bytes H :=
  repeat match type of H with
         | Forall _ (_ :: _) =>
             let Hx := fresh "Hb" in
             let Hr := fresh "Hr" in
             apply Forall_cons in H; destruct H as [Hx Hr]; try split_bytes Hr
         end.

Lemma sextets_bound l :
  Forall (fun b => b < 256) l -> Forall (fun s => s < 64) (sextets l).
Proof.
  induction l as [|a|a b|a b c r IH] using list_ind3; intros H; simpl;
    split_bytes H; repeat (apply Forall_cons; split); auto; divmod.
Qed.

Lemma bytes_of_sextets l :
  Forall (fun b => b < 256) l -> bytes_of (sextets l) = l.
Proof.
  induction l as [|a|a b|a b c r IH] using list_ind3; intros H; simpl;
    split_bytes H; rewrite ?IH by assumption;
    try reflexivity; repeat f_equal; divmod.
Qed.

Lemma indices_chars sx :
  Forall (fun s => s < 64) sx -> indices (map char_of sx) = Some sx.
Proof.
  induction 1 as [|s sx Hs _ IH]; simpl; [reflexivity|].
  now rewrite index_of_char_of, IH.
Qed.

Lemma padding_step n : padding (3 + n) = padding n.
Proof.
  unfold padding. replace (3 + n)%nat with (n + 1 * 3)%nat by lia.
  now rewrite Nat.Div0.mod_add.
Qed.

(** The shape of an encoding: [4k + j] characters and [(4 - j) mod 4] pads,
    [j] never 1. *)
Lemma sextets_shape l :
  exists k j : nat,
    length (sextets l) = (4 * k + j)%nat /\
    (j = 0 /\ padding (length l) = [] \/
     j = 2 /\ padding (length l) = [pad; pad] \/
     j = 3 /\ padding (length l) = [pad])%nat.
Proof.
  induction l as [|a|a b|a b c r IH] using list_ind3.
  - exists 0%nat, 0%nat. auto.
  - exists 0%nat, 2%nat. auto.
  - exists 0%nat, 3%nat. auto 6.
  - destruct IH as (k & j & Hlen & Hj). exists (S k), j. split.
    + simpl. rewrite Hlen. lia.
    + change (length (a :: b :: c :: r)) with (3 + length r)%nat.
      now rewrite padding_step.
Qed.

Lemma filter_plain cs :
  Forall (fun c => is_ascii_whitespace c = false) cs ->
  filter (fun c => is_ascii_whitespace c = false) cs = cs.
Proof.
  induction 1 as [|c cs Hc _ IH]; [reflexivity|].
  rewrite filter_cons. destruct (decide _); [now rewrite IH | contradiction].
Qed.

Lemma strip_padding_plain cs tail :
  Forall (fun c => c <> pad) cs ->
  tail = [] \/ tail = [pad] \/ tail = [pad; pad] ->
  strip_padding (cs ++ tail) = cs.
Proof.
  intros Hcs Htail. induction Hcs as [|c cs Hc _ IH].
  - destruct Htail as [-> | [-> | ->]]; reflexivity.
  - change ((c :: cs) ++ tail) with (c :: (cs ++ tail)).
    cbn [strip_padding forallb].
    destruct (N.eqb_spec pad c) as [E|_]; [congruence|].
    simpl. now rewrite IH.
Qed.

Lemma mod4 k j : (j < 4)%nat -> ((4 * k + j) mod 4 = j)%nat.
Proof.
  intros Hj. rewrite Nat.add_comm, Nat.mul_comm, Nat.Div0.mod_add.
  now apply Nat.mod_small.
Qed.

(** [atob] undoes [btoa] on every string of bytes. *)
Lemma atob_btoa binary :
  Forall (fun b => b < 256) binary ->
  btoa binary = Ok (map char_of (sextets binary) ++ padding (length binary)) /\
  atob (map char_of (sextets binary) ++ padding (length binary)) = Ok binary.
Proof.
  intros Hb. split.
  - unfold btoa. replace (forallb _ binary) with true; [reflexivity|].
    symmetry. apply forallb_forall. intros x Hx.
    apply N.ltb_lt. rewrite Forall_forall in Hb. apply Hb.
    now apply list_elem_of_In.
  - set (cs := map char_of (sextets binary)).
    assert (Hplain : Forall (fun c => c <> pad) cs /\
                     Forall (fun c => is_ascii_whitespace c = false) cs).
    { subst cs. split; apply Forall_map, Forall_true; intros s; apply char_of_plain. }
    destruct Hplain as [Hnopad Hnows].
    destruct (sextets_shape binary) as (k & j & Hlen & Hj).
    assert (Hcs : length cs = (4 * k + j)%nat) by (subst cs; now rewrite length_map).
    unfold atob.
    assert (Hf : filter (fun c => is_ascii_whitespace c = false)
                   (cs ++ padding (length binary)) = cs ++ padding (length binary)).
    { apply filter_plain. apply Forall_app. split; [assumption|].
      destruct Hj as [[_ ->] | [[_ ->] | [_ ->]]]; repeat constructor. }
    rewrite Hf.
    assert (Hfull : (length (cs ++ padding (length binary)) mod 4 = 0)%nat).
    { rewrite length_app, Hcs.
      destruct Hj as [[-> ->] | [[-> ->] | [-> ->]]]; simpl length.
      - replace (4 * k + 0 + 0)%nat with (4 * k + 0)%nat by lia. apply mod4; lia.
      - replace (4 * k + 2 + 2)%nat with (4 * S k + 0)%nat by lia. apply mod4; lia.
      - replace (4 * k + 3 + 1)%nat with (4 * S k + 0)%nat by lia. apply mod4; lia. }
    rewrite Hfull. cbn [Nat.eqb].
    rewrite strip_padding_plain; [|assumption|
      destruct Hj as [[_ ->] | [[_ ->] | [_ ->]]]; auto].
    assert (Hrem : (length cs mod 4 =? 1)%nat = false).
    { rewrite Hcs. destruct Hj as [[-> _] | [[-> _] | [-> _]]];
        rewrite mod4 by lia; reflexivity. }
    rewrite Hrem. subst cs.
    rewrite indices_chars by now apply sextets_bound.
    now rewrite bytes_of_sextets.
Qed.

End Base64Facts.

(** ** Bytes and samples *)

Lemma to_uint8_to_N b : to_uint8 (Byte.to_N b) = b.
Proof.
  unfold to_uint8. pose proof (Byte.to_N_bounded b) as Hb.
  rewrite N.mod_small by lia. now rewrite Byte.of_to_N.
Qed.

Lemma to_N_to_uint8 n : Byte.to_N (to_uint8 n) = n mod 256.
Proof.
  unfold to_uint8.
  destruct (Byte.of_N (n mod 256)) as [b|] eqn:E.
  - now apply Byte.to_of_N.
  - apply Byte.of_N_None_iff in E.
    pose proof (N.mod_upper_bound n 256). lia.
Qed.

Lemma fold_left_snoc {A B} (f : A -> B) l acc :
  fold_left (fun acc x => acc ++ [f x]) l acc = acc ++ map f l.
Proof.
  revert acc. induction l as [|x l IH]; intros acc; simpl.
  - now rewrite app_nil_r.
  - now rewrite IH, <- app_assoc.
Qed.

Lemma bytes_bounded (bytes : list byte) :
  Forall (fun b => b < 256) (map Byte.to_N bytes).
Proof.
  apply Forall_map, Forall_true. intros b. pose proof (Byte.to_N_bounded b). simpl. lia.
Qed.

(** [encode] never throws, and [decode] undoes it. *)
Lemma encode_decode (bytes : list byte) :
  exists base64, encode bytes = Ok base64 /\ decode base64 = Ok bytes.
Proof.
  unfold encode. rewrite fold_left_snoc. cbn [app].
  destruct (Base64Facts.atob_btoa _ (bytes_bounded bytes)) as [Henc Hdec].
  eexists. split; [exact Henc|].
  unfold decode. rewrite Hdec. cbn [rbind]. f_equal.
  rewrite map_map. rewrite <- (map_id bytes) at 2.
  apply map_ext. intros b. apply to_uint8_to_N.
Qed.

Lemma wrap16_range z : (-32768 <= wrap16 z < 32768)%Z.
Proof. unfold wrap16. pose proof (Z.mod_pos_bound (z + 32768) 65536). lia. Qed.

Lemma wrap16_small z : (-32768 <= z < 32768)%Z -> wrap16 z = z.
Proof. intros H. unfold wrap16. rewrite Z.mod_small; lia. Qed.

Lemma list_ind2 {A} (P : list A -> Prop) :
  P [] -> (forall a, P [a]) -> (forall a b r, P r -> P (a :: b :: r)) ->
  forall l, P l.
Proof.
  intros H0 H1 H2. fix IH 1.
  intros [|a [|b r]]; [exact H0 | exact (H1 a) | exact (H2 a b r (IH r))].
Qed.

Lemma int16_view_range data samples :
  int16_view data = Ok samples ->
  Forall (fun v => -32768 <= v < 32768)%Z samples.
Proof.
  revert samples. induction data as [|a|a b r IH] using list_ind2; intros samples H.
  - injection H as <-. constructor.
  - discriminate.
  - cbn [int16_view] in H. destruct (int16_view r) as [l|e]; [|discriminate].
    injection H as <-. constructor; [apply wrap16_range | now apply IH].
Qed.

Lemma nth_Forall {A} (P : A -> Prop) l i d : Forall P l -> P d -> P (nth i l d).
Proof.
  intros Hl Hd. revert i. induction Hl as [|x l Hx _ IH]; intros [|i]; simpl; auto.
Qed.

Lemma sample_in_unit_range v :
  (-32768 <= v < 32768)%Z -> in_unit_range (inject_Z v / 32768)%Q.
Proof.
  intros H. unfold in_unit_range, Qle, Qlt, Qdiv, Qmult, Qinv, inject_Z. simpl. lia.
Qed.

Lemma decodeAudioData_range data rate channels audioBuffer :
  decodeAudioData data rate channels = Ok audioBuffer ->
  Forall (Forall in_unit_range) (channelData audioBuffer).
Proof.
  unfold decodeAudioData. intros H.
  destruct (int16_view data) as [samples|e] eqn:E; [|discriminate].
  cbn [rbind] in H.
  destruct (_ || _); [discriminate|]. injection H as <-. cbn [channelData].
  apply Forall_map, Forall_true. intros channel.
  apply Forall_map, Forall_true. intros i. simpl.
  apply sample_in_unit_range.
  apply nth_Forall; [now apply (int16_view_range data) | lia].
Qed.

(** C10. For every byte array, [encode] succeeds and [decode] gives the
    array back; and every sample [decodeAudioData] makes of a byte array, a
    16-bit value over 32768, is at least -1 and below 1. *)
Theorem base64_round_trip (bytes : list byte) :
  (exists base64, encode bytes = Ok base64 /\ decode base64 = Ok bytes) /\
  (forall rate channels audioBuffer,
     decodeAudioData bytes rate channels = Ok audioBuffer ->
     Forall (Forall in_unit_range) (channelData audioBuffer)).
Proof.
  split; [apply encode_decode|].
  intros rate channels audioBuffer. apply decodeAudioData_range.
Qed.

Lemma base64_round_trip_witness :
  (exists base64, encode [x00; x80; xff; x7f] = Ok base64 /\
                  decode base64 = Ok [x00; x80; xff; x7f]) /\
  Forall (Forall in_unit_range) [[(-32768 # 32768)%Q; (32767 # 32768)%Q]].
Proof.
  destruct (base64_round_trip [x00; x80; xff; x7f]) as [Hround Hrange].
  split; [exact Hround|].
  exact (Hrange 24000%Z 1%nat
           {| numberOfChannels := 1; frames := 2; bufferRate := 24000;
              channelData := [[(-32768 # 32768)%Q; (32767 # 32768)%Q]] |} eq_refl).
Defined.

(** ** Running a callback step by step *)

Lemma bind_gets {A B} (f : state -> A) (k : A -> M B) s :
  (gets f ≫= k) s = k (f s) s.
Proof. reflexivity. Qed.
Lemma bind_modify {B} (g : state -> state) (k : unit -> M B) s :
  (modify g ≫= k) s = k tt (g s).
Proof. reflexivity. Qed.
Lemma bind_call {B} c (k : unit -> M B) s :
  (call_ c ≫= k) s = k tt (set_calls (calls s ++ [c]) s).
Proof. reflexivity. Qed.
Lemma bind_ret {A B} (a : A) (k : A -> M B) s :
  (mret a ≫= k) s = k a s.
Proof. reflexivity. Qed.
Lemma bind_new_handle {B} (k : Z -> M B) s :
  (new_handle ≫= k) s = k (fresh s) (set_fresh (fresh s + 1)%Z s).
Proof. reflexivity. Qed.
Lemma bind_lift {A B} (r : result A) (k : A -> M B) s :
  (lift r ≫= k) s = match r with Ok a => k a s | Throw e => (Throw e, s) end.
Proof. destruct r; reflexivity. Qed.
Lemma bind_assoc {A B C} (m : M A) (f : A -> M B) (g : B -> M C) s :
  ((m ≫= f) ≫= g) s = (m ≫= (fun a => f a ≫= g)) s.
Proof.
  unfold mbind, M_bind, bind. destruct (m s) as [[a|e] s1]; reflexivity.
Qed.
Lemma bind_ok {A B} (m : M A) (k : A -> M B) s a s1 :
  m s = (Ok a, s1) -> (m ≫= k) s = k a s1.
Proof. unfold mbind, M_bind, bind. now intros ->. Qed.
Lemma bind_throw {A B} (m : M A) (k : A -> M B) s e s1 :
  m s = (Throw e, s1) -> (m ≫= k) s = (Throw e, s1).
Proof. unfold mbind, M_bind, bind. now intros ->. Qed.
Lemma run_modify g s : modify g s = (Ok tt, g s).
Proof. reflexivity. Qed.
Lemma run_call c s : call_ c s = (Ok tt, set_calls (calls s ++ [c]) s).
Proof. reflexivity. Qed.
Lemma run_ret {A} (a : A) s : (mret a : M A) s = (Ok a, s).
Proof. reflexivity. Qed.

Lemma forEach_call {A} (c : A -> call) l s :
  forEach l (fun x => call_ (c x)) s = (Ok tt, set_calls (calls s ++ map c l) s).
Proof.
  revert s. induction l as [|x l IH]; intros s.
  - destruct s; cbn. now rewrite app_nil_r.
  - cbn [forEach]. rewrite bind_call, IH. destruct s; cbn.
    now rewrite <- app_assoc.
Qed.

Ltac fields :=
  cbn [ctxId sampleRate ctxState srcId buffer aiStatus error transcription inputAudioContextRef outputAudioContextRef
       sessionPromiseRef mediaStreamRef scriptProcessorRef sourcesRef
       currentInputTranscriptionRef currentOutputTranscriptionRef nextStartTimeRef
       aiSpeakingTimerRef timers fresh localStorage calls
       set_aiStatus set_error set_transcription set_inputAudioContextRef
       set_outputAudioContextRef set_sessionPromiseRef set_mediaStreamRef
       set_scriptProcessorRef set_sourcesRef set_currentInputTranscriptionRef
       set_currentOutputTranscriptionRef set_nextStartTimeRef set_aiSpeakingTimerRef
       set_timers set_fresh set_localStorage set_calls].

Ltac mstep :=
  first
    [ rewrite bind_assoc
    | rewrite bind_gets
    | rewrite bind_modify
    | rewrite bind_call
    | rewrite bind_ret
    | rewrite bind_new_handle
    | rewrite run_modify
    | rewrite run_call
    | rewrite run_ret
    | erewrite bind_ok by apply forEach_call
    | rewrite forEach_call ];
  cbv beta; fields.

Ltac mrun := cbv beta; fields; repeat mstep.

Lemma cleanup_eq s : cleanup s = (Ok tt, cleaned s).
Proof.
  destruct s as [st er tr ic oc se ms sp so ci co ns ti tm fr ls cs].
  unfold cleanup, cleaned, cleanup_calls, setAIStatus, clearTimeout, close, when.
  mrun.
  destruct ti as [id|]; [destruct (truthy_number id) eqn:Hid|]; mrun;
  (destruct ms as [tracks|]; mrun);
  (destruct sp as [node|]; mrun);
  (destruct ic as [[i1 r1 []]|]; mrun);
  (destruct oc as [[i2 r2 []]|]; mrun);
  (destruct se as [session|]; mrun); cbn; rewrite ?Hid; cbn;
  rewrite <- ?app_assoc; reflexivity.
Qed.

Lemma since_app s s' l : calls s' = calls s ++ l -> since s s' = l.
Proof. intros H. unfold since. rewrite H. apply drop_app_length. Qed.

Lemma since_cleanup s : since s (cleanup s).2 = cleanup_calls s.
Proof. rewrite cleanup_eq. now apply since_app. Qed.

Lemma cleared_not_pending id pending :
  truthy_number id = true -> ~ In id (cleared (Some id) pending).
Proof.
  intros Hid. unfold cleared. rewrite Hid. intros Hin.
  apply list_elem_of_In, list_elem_of_filter in Hin. now destruct Hin.
Qed.

Lemma truthy_number_true id : id ≠ 0%Z -> truthy_number id = true.
Proof. intros H. unfold truthy_number. now destruct (Z.eqb_spec id 0). Qed.

Lemma startConversation_cursor microphone s :
  nextStartTimeRef (startConversation microphone s).2 = 0%Q.
Proof.
  destruct s as [st er tr ic oc se ms sp so ci co ns ti tm fr ls cs].
  unfold startConversation, setAIStatus, setError, setTranscription, store_effect,
    newAudioContext, startLiveSession, try_catch, when.
  mrun. cbn [length Nat.ltb Nat.leb]. mrun.
  destruct microphone as [stream|e]; rewrite bind_lift; mrun.
  - reflexivity.
  - rewrite cleanup_eq. reflexivity.
Qed.

(** C1, amended.  From any state [cleanup] returns normally and: cancels the
    timer the ref names, stops every track of the stream and drops it,
    disconnects the processor node and drops it, closes each audio context that
    is not closed, closes the session and drops it, stops every source of the
    active set and empties the set.  It leaves the next-start cursor as it is;
    the cursor is put back to zero by the next [startConversation]. *)
Theorem cleanup_releases s :
  (cleanup s).1 = Ok tt /\
  since s (cleanup s).2 = cleanup_calls s /\
  (forall id, aiSpeakingTimerRef s = Some id -> id ≠ 0%Z ->
     In (ClearTimeout id) (cleanup_calls s) /\ ~ In id (timers (cleanup s).2)) /\
  (forall tracks track, mediaStreamRef s = Some tracks -> In track tracks ->
     In (TrackStop track) (cleanup_calls s)) /\
  mediaStreamRef (cleanup s).2 = None /\
  (forall node, scriptProcessorRef s = Some node -> In (Disconnect node) (cleanup_calls s)) /\
  scriptProcessorRef (cleanup s).2 = None /\
  (forall ctx, inputAudioContextRef s = Some ctx \/ outputAudioContextRef s = Some ctx ->
     ctxState ctx ≠ closed -> In (ContextClose (ctxId ctx)) (cleanup_calls s)) /\
  (forall ctx, inputAudioContextRef (cleanup s).2 = Some ctx \/
               outputAudioContextRef (cleanup s).2 = Some ctx ->
     ctxState ctx = closed) /\
  (forall session, sessionPromiseRef s = Some session ->
     In (SessionClose session) (cleanup_calls s)) /\
  sessionPromiseRef (cleanup s).2 = None /\
  (forall source, In source (sourcesRef s) -> In (SourceStop source) (cleanup_calls s)) /\
  sourcesRef (cleanup s).2 = [] /\
  nextStartTimeRef (cleanup s).2 = nextStartTimeRef s /\
  (forall microphone, nextStartTimeRef (startConversation microphone (cleanup s).2).2 = 0%Q).
Proof.
  split; [now rewrite cleanup_eq|].
  split; [apply since_cleanup|].
  rewrite cleanup_eq. cbn [snd cleaned mediaStreamRef scriptProcessorRef
    sessionPromiseRef sourcesRef nextStartTimeRef timers inputAudioContextRef
    outputAudioContextRef].
  unfold cleanup_calls. repeat split; try reflexivity.
  - rewrite H. unfold clear_calls. rewrite truthy_number_true by assumption.
    apply in_app_iff. left. now left.
  - rewrite H. now apply cleared_not_pending, truthy_number_true.
  - intros tracks track -> Hin. rewrite !in_app_iff. right. left.
    now apply in_map.
  - intros node ->. rewrite !in_app_iff. right. right. left. now left.
  - intros ctx [-> | ->] Hopen; rewrite !in_app_iff.
    + right. right. right. left. unfold close_calls.
      destruct (ctxState ctx); [now left | now left | contradiction].
    + right. right. right. right. left. unfold close_calls.
      destruct (ctxState ctx); [now left | now left | contradiction].
  - intros ctx [H | H].
    + destruct (inputAudioContextRef s); [|discriminate]. now injection H as <-.
    + destruct (outputAudioContextRef s); [|discriminate]. now injection H as <-.
  - intros session ->. rewrite !in_app_iff. do 5 right. left. now left.
  - intros source Hin. rewrite !in_app_iff. do 6 right. left. now apply in_map.
  - intros microphone. apply startConversation_cursor.
Qed.

Lemma cleanup_releases_witness :
  In (ClearTimeout 7) (cleanup_calls speaking_session) /\
  ~ In 7%Z (timers (cleanup speaking_session).2) /\
  In (TrackStop 70) (cleanup_calls speaking_session) /\
  In (Disconnect 5) (cleanup_calls speaking_session) /\
  In (ContextClose 2) (cleanup_calls speaking_session) /\
  In (SessionClose 3) (cleanup_calls speaking_session).
Proof.
  destruct (cleanup_releases speaking_session)
    as (_ & _ & Htimer & Htrack & _ & Hnode & _ & Hctx & _ & Hsession & _).
  destruct (Htimer 7%Z eq_refl) as [Hclear Hpending]; [discriminate|].
  split; [exact Hclear|]. split; [exact Hpending|].
  split; [apply (Htrack [70%Z] 70%Z eq_refl); now left|].
  split; [exact (Hnode 5%Z eq_refl)|].
  split; [|exact (Hsession 3%Z eq_refl)].
  apply (Hctx {| ctxId := 2; sampleRate := 24000; ctxState := running |});
    [right; reflexivity | discriminate].
Defined.

(** C1 as stated fails: a session torn down while a chunk plays keeps the
    cursor of that chunk. *)
Lemma cleanup_keeps_cursor :
  ~ (nextStartTimeRef (cleanup speaking_session).2 == 0)%Q.
Proof. intros H. vm_compute in H. discriminate. Qed.

Lemma close_mark_closed c : close_calls (close_mark c) = [].
Proof. now destruct c. Qed.

Lemma close_mark_twice c : close_mark (close_mark c) = close_mark c.
Proof. now destruct c. Qed.

Lemma cleared_twice timer pending :
  cleared timer (cleared timer pending) = cleared timer pending.
Proof.
  unfold cleared. destruct timer as [id|]; [|reflexivity].
  destruct (truthy_number id); [|reflexivity].
  induction pending as [|t pending IH]; [reflexivity|].
  rewrite filter_cons. destruct (decide (t ≠ id)) as [Ht|Ht]; [|exact IH].
  rewrite filter_cons. destruct (decide (t ≠ id)); [|contradiction].
  now rewrite IH.
Qed.

Lemma cleanup_calls_quiet s e : ~ In (Rejected e) (cleanup_calls s).
Proof.
  unfold cleanup_calls, clear_calls, close_calls. rewrite !in_app_iff, !in_map_iff.
  intros [H | [H | [H | [H | [H | [H | [H | H]]]]]]].
  - destruct (aiSpeakingTimerRef s) as [id|]; [destruct (truthy_number id)|];
      simpl in H; intuition discriminate.
  - destruct H as (? & ? & _). discriminate.
  - destruct (scriptProcessorRef s); simpl in H; intuition discriminate.
  - destruct (inputAudioContextRef s) as [[? ? []]|]; simpl in H; intuition discriminate.
  - destruct (outputAudioContextRef s) as [[? ? []]|]; simpl in H; intuition discriminate.
  - destruct (sessionPromiseRef s); simpl in H; intuition discriminate.
  - destruct H as (? & ? & _). discriminate.
  - simpl in H. intuition discriminate.
Qed.

(** C7.  [cleanup] never throws and never closes a closed context, whatever
    the state; it leaves the status idle.  Run a second time it finds every
    resource released: it returns normally, leaves the status idle, and changes
    nothing but the call log, where it repeats the [clearTimeout] of the
    timer already cancelled and the write of the status.  On a component that
    never acquired anything it only writes the status. *)
Theorem cleanup_idempotent s :
  (cleanup s).1 = Ok tt /\
  (cleanup (cleanup s).2).1 = Ok tt /\
  aiStatus (cleanup s).2 = Idle /\
  aiStatus (cleanup (cleanup s).2).2 = Idle /\
  (forall e, ~ In (Rejected e) (since s (cleanup s).2)) /\
  (cleanup (cleanup s).2).2 =
    set_calls (calls (cleanup s).2 ++ clear_calls (aiSpeakingTimerRef s) ++ [SetAIStatus Idle])
      (cleanup s).2 /\
  (forall store,
     cleanup (initial store) = (Ok tt, set_calls [SetAIStatus Idle] (initial store))).
Proof.
  rewrite !cleanup_eq. cbn [fst snd].
  do 4 (split; [reflexivity|]).
  split; [|split].
  - intros e. rewrite (since_app s (cleaned s) (cleanup_calls s)) by reflexivity.
    apply cleanup_calls_quiet.
  - unfold cleaned at 1. unfold cleanup_calls at 1.
    cbn [cleaned aiStatus error transcription inputAudioContextRef outputAudioContextRef
         sessionPromiseRef mediaStreamRef scriptProcessorRef sourcesRef
         currentInputTranscriptionRef currentOutputTranscriptionRef nextStartTimeRef
         aiSpeakingTimerRef timers fresh localStorage calls set_calls].
    rewrite !close_mark_closed, !close_mark_twice, cleared_twice. reflexivity.
  - intros store. now rewrite cleanup_eq.
Qed.

(** C2, as the code runs it.  When [getUserMedia] rejects, [startConversation]
    stores the fixed message and writes the status [Error], then runs
    [cleanup], whose last step writes [Idle]: the status ends idle, not in
    error. *)
Theorem microphone_denied e s :
  (startConversation (Throw e) s).1 = Ok tt /\
  error (startConversation (Throw e) s).2 =
    Some "Could not access microphone. Please grant permission and try again."%string /\
  since s (startConversation (Throw e) s).2 =
    [SetAIStatus Connecting; ConsoleError "Failed to start conversation:";
     SetAIStatus Error] ++ cleanup_calls s /\
  aiStatus (startConversation (Throw e) s).2 = Idle /\
  sessionPromiseRef (startConversation (Throw e) s).2 = None /\
  mediaStreamRef (startConversation (Throw e) s).2 = None /\
  sourcesRef (startConversation (Throw e) s).2 = [].
Proof.
  assert (H : exists s1,
    startConversation (Throw e) s = (Ok tt, cleaned s1) /\
    error s1 = Some "Could not access microphone. Please grant permission and try again."%string /\
    calls s1 = calls s ++ [SetAIStatus Connecting; ConsoleError "Failed to start conversation:";
                           SetAIStatus Error] /\
    cleanup_calls s1 = cleanup_calls s).
  { destruct s as [st er tr ic oc se ms sp so ci co ns ti tm fr ls cs].
    unfold startConversation, setAIStatus, setError, setTranscription, store_effect,
      try_catch, when.
    mrun. cbn [length Nat.ltb Nat.leb]. mrun. rewrite bind_lift. mrun.
    rewrite cleanup_eq. eexists. split; [reflexivity|]. fields.
    rewrite <- !app_assoc. now repeat split. }
  destruct H as (s1 & -> & Herr & Hcalls & Hsame). cbn [fst snd].
  repeat split; try assumption.
  apply since_app. cbn [cleaned calls]. now rewrite Hcalls, Hsame, <- app_assoc.
Qed.

(** ** The blocks of [onmessage] in closed form *)

(** Setters and projections over a state given field by field. *)
Ltac norm_state :=
  cbv beta iota delta
    [ctxId sampleRate ctxState srcId buffer aiStatus error transcription
     inputAudioContextRef outputAudioContextRef
     sessionPromiseRef mediaStreamRef scriptProcessorRef sourcesRef
     currentInputTranscriptionRef currentOutputTranscriptionRef nextStartTimeRef
     aiSpeakingTimerRef timers fresh localStorage calls
     set_aiStatus set_error set_transcription set_inputAudioContextRef
     set_outputAudioContextRef set_sessionPromiseRef set_mediaStreamRef
     set_scriptProcessorRef set_sourcesRef set_currentInputTranscriptionRef
     set_currentOutputTranscriptionRef set_nextStartTimeRef set_aiSpeakingTimerRef
     set_timers set_fresh set_localStorage set_calls].

Ltac same_state := norm_state; rewrite <- ?app_assoc; cbn [app]; reflexivity.

Lemma onmessage_transcriptions_eq message s :
  onmessage_transcriptions message s = (Ok tt, hear message s).
Proof.
  unfold onmessage_transcriptions, hear.
  destruct (inputTranscription message), (outputTranscription message); mrun; reflexivity.
Qed.

Lemma onmessage_turnComplete_eq message s :
  onmessage_turnComplete message s = (Ok tt, if turnComplete message then flush s else s).
Proof.
  unfold onmessage_turnComplete, when. destruct (turnComplete message); [|reflexivity].
  destruct s as [st er tr ic oc se ms sp so ci co ns ti tm fr ls cs].
  unfold setTranscription, store_effect, setAIStatus, flush, stored_with, turn_entries, when.
  mrun.
  destruct (truthy_string (trim ci)), (truthy_string (trim co));
    rewrite <- ?app_assoc, ?app_nil_r; cbn [app];
    match goal with
    | |- context [(0 <? length ?l)%nat] => destruct (0 <? length l)%nat
    end; mrun; same_state.
Qed.

Lemma onmessage_audio_eq now message s :
  onmessage_audio now message s =
    match outputAudioContextRef s, decoded message with
    | Some _, Some (Ok audioBuffer) => (Ok tt, play audioBuffer (speak now s))
    | Some _, Some (Throw e) => (Throw e, speak now s)
    | _, _ => (Ok tt, s)
    end.
Proof.
  unfold onmessage_audio, decoded. mrun.
  destruct (audioData message) as [base64|];
    [|now destruct (outputAudioContextRef s)].
  destruct (outputAudioContextRef s) as [ctx|] eqn:Hout;
    [|destruct (truthy_string base64); reflexivity].
  unfold when. destruct (truthy_string base64); [|reflexivity].
  destruct s as [st er tr ic oc se ms sp so ci co ns ti tm fr ls cs].
  unfold setAIStatus, clearTimeout, createBufferSource, setTimeout, speak, play,
    clear_calls, cleared, when.
  mrun.
  destruct ti as [id|]; [destruct (truthy_number id)|]; mrun;
    rewrite bind_lift;
    (destruct (decode base64) as [bytes|e]; cbn [rbind]; [|same_state]);
    rewrite bind_lift;
    (destruct (decodeAudioData bytes 24000 1) as [audioBuffer|e]; [|same_state]);
    mrun; norm_state; rewrite <- ?app_assoc; cbn [app];
    rewrite <- ?Z.add_assoc; reflexivity.
Qed.

Lemma onmessage_interrupted_eq message s :
  onmessage_interrupted message s =
    (Ok tt, if interrupted message then interrupt s else s).
Proof.
  unfold onmessage_interrupted, when. destruct (interrupted message); [|reflexivity].
  destruct s as [st er tr ic oc se ms sp so ci co ns ti tm fr ls cs].
  unfold setAIStatus, clearTimeout, interrupt, clear_calls, cleared, when.
  mrun.
  destruct ti as [id|]; [destruct (truthy_number id)|]; mrun; same_state.
Qed.

Lemma handleInterruptSpeech_eq s :
  handleInterruptSpeech s =
    (Ok tt,
     set_aiSpeakingTimerRef
       (match aiSpeakingTimerRef s with
        | Some id => if truthy_number id then None else Some id
        | None => None
        end) (interrupt s)).
Proof.
  destruct s as [st er tr ic oc se ms sp so ci co ns ti tm fr ls cs].
  unfold handleInterruptSpeech, setAIStatus, clearTimeout, interrupt, clear_calls,
    cleared, when.
  mrun.
  destruct ti as [id|]; [destruct (truthy_number id)|]; mrun; same_state.
Qed.

(** The whole of [onmessage]: the first two blocks never throw; a chunk that
    does not decode ends the callback before the interruption is looked at. *)
Lemma onmessage_eq now message s :
  onmessage now message s =
    let s1 := hear message s in
    let s2 := if turnComplete message then flush s1 else s1 in
    match onmessage_audio now message s2 with
    | (Ok _, s3) => (Ok tt, if interrupted message then interrupt s3 else s3)
    | (Throw e, s3) => (Throw e, s3)
    end.
Proof.
  unfold onmessage.
  rewrite (bind_ok _ _ _ _ _ (onmessage_transcriptions_eq message s)).
  rewrite (bind_ok _ _ _ _ _ (onmessage_turnComplete_eq message _)).
  cbv zeta.
  destruct (onmessage_audio now message _) as [[[]|e] s3] eqn:E.
  - rewrite (bind_ok _ _ _ _ _ E). apply onmessage_interrupted_eq.
  - now rewrite (bind_throw _ _ _ _ _ E).
Qed.

(** ** The transcript *)

Ltac blocks := unfold hear, flush, stored_with, speak, play, interrupt; fields.

(** The audio block and the interruption leave the transcript, the pending
    texts and the store alone. *)
Lemma onmessage_text now message s :
  let s2 := if turnComplete message then flush (hear message s) else hear message s in
  let s' := (onmessage now message s).2 in
  transcription s' = transcription s2 /\
  currentInputTranscriptionRef s' = currentInputTranscriptionRef s2 /\
  currentOutputTranscriptionRef s' = currentOutputTranscriptionRef s2 /\
  localStorage s' = localStorage s2.
Proof.
  cbv zeta. rewrite onmessage_eq. cbv zeta. rewrite onmessage_audio_eq.
  set (s2 := if turnComplete message then _ else _).
  destruct (outputAudioContextRef s2), (decoded message) as [[audioBuffer|e]|];
    cbn [snd]; destruct (interrupted message); blocks; auto.
Qed.

Lemma hear_text message s :
  transcription (hear message s) = transcription s /\
  localStorage (hear message s) = localStorage s /\
  currentInputTranscriptionRef (hear message s) =
    currentInputTranscriptionRef s ++ default [] (inputTranscription message) /\
  currentOutputTranscriptionRef (hear message s) =
    currentOutputTranscriptionRef s ++ default [] (outputTranscription message).
Proof.
  unfold hear.
  destruct (inputTranscription message), (outputTranscription message);
    fields; cbn [default]; rewrite ?app_nil_r; auto.
Qed.

Lemma flush_text s :
  transcription (flush s) =
    transcription s ++ turn_entries (trim (currentInputTranscriptionRef s))
                                    (trim (currentOutputTranscriptionRef s)) /\
  currentInputTranscriptionRef (flush s) = [] /\
  currentOutputTranscriptionRef (flush s) = [].
Proof.
  unfold flush, stored_with.
  match goal with |- context [(0 <? length ?l)%nat] => destruct (0 <? length l)%nat end;
    fields; auto.
Qed.

Lemma turn_entries_nonempty userInput aiOutput :
  Forall (fun entry => text entry ≠ []) (turn_entries userInput aiOutput).
Proof.
  unfold turn_entries. apply Forall_app. split.
  - destruct userInput; cbn [truthy_string]; repeat constructor. discriminate.
  - destruct aiOutput; cbn [truthy_string]; repeat constructor. discriminate.
Qed.

Lemma onmessage_no_audio now message s :
  decoded message = None ->
  onmessage now message s =
    (Ok tt,
     let s2 := if turnComplete message then flush (hear message s) else hear message s in
     if interrupted message then interrupt s2 else s2).
Proof.
  intros H. rewrite onmessage_eq. cbv zeta. rewrite onmessage_audio_eq, H.
  now destruct (outputAudioContextRef _).
Qed.

(** C5.  A message with the turn-complete flag appends to the history the
    trimmed pending input as a [You] entry when it is not empty, then the
    trimmed pending output as an [AI] entry when it is not empty, and leaves
    both pending texts empty; no appended entry has an empty text.  After the
    partial inputs "I enjoy" and " coding" and a turn-complete message without
    output text, the history has gained the one entry [You, "I enjoy coding"]
    and no [AI] entry. *)
Theorem turn_complete_flushes :
  (forall now message s,
     turnComplete message = true ->
     let userInput :=
       trim (currentInputTranscriptionRef s ++ default [] (inputTranscription message)) in
     let aiOutput :=
       trim (currentOutputTranscriptionRef s ++ default [] (outputTranscription message)) in
     let s' := (onmessage now message s).2 in
     transcription s' = transcription s ++ turn_entries userInput aiOutput /\
     currentInputTranscriptionRef s' = [] /\
     currentOutputTranscriptionRef s' = [] /\
     Forall (fun entry => text entry ≠ []) (turn_entries userInput aiOutput)) /\
  (forall now1 now2 now3 s,
     currentInputTranscriptionRef s = [] ->
     currentOutputTranscriptionRef s = [] ->
     transcription
       (handle_all [(now1, with_input (str "I enjoy") no_content);
                    (now2, with_input (str " coding") no_content);
                    (now3, with_turnComplete no_content)] s).2
     = transcription s ++ [{| author := You; text := str "I enjoy coding" |}]).
Proof.
  split.
  - intros now message s Hturn. cbv zeta.
    destruct (onmessage_text now message s) as (-> & -> & -> & _).
    rewrite Hturn.
    destruct (flush_text (hear message s)) as (-> & -> & ->).
    destruct (hear_text message s) as (-> & _ & -> & ->).
    repeat split. apply turn_entries_nonempty.
  - intros now1 now2 now3 s Hin Hout.
    unfold handle_all. cbn [forEach fst snd].
    erewrite bind_ok by (apply onmessage_no_audio; reflexivity).
    erewrite bind_ok by (apply onmessage_no_audio; reflexivity).
    erewrite bind_ok by (apply onmessage_no_audio; reflexivity).
    cbn [snd ret turnComplete interrupted with_input with_turnComplete no_content].
    destruct (flush_text
                (hear (with_turnComplete no_content)
                   (hear (with_input (str " coding") no_content)
                      (hear (with_input (str "I enjoy") no_content) s)))) as (-> & _).
    destruct (hear_text (with_turnComplete no_content)
                (hear (with_input (str " coding") no_content)
                   (hear (with_input (str "I enjoy") no_content) s))) as (-> & _ & -> & ->).
    destruct (hear_text (with_input (str " coding") no_content)
                (hear (with_input (str "I enjoy") no_content) s)) as (-> & _ & -> & ->).
    destruct (hear_text (with_input (str "I enjoy") no_content) s) as (-> & _ & -> & ->).
    rewrite Hin, Hout. reflexivity.
Qed.

Lemma turn_complete_flushes_witness :
  transcription
    (onmessage 0%Q (with_turnComplete (with_input (str " hello ") no_content))
       listening_session).2
  = [{| author := You; text := str "hello" |}] /\
  transcription
    (handle_all [(0%Q, with_input (str "I enjoy") no_content);
                 (0%Q, with_input (str " coding") no_content);
                 (0%Q, with_turnComplete no_content)] listening_session).2
  = [{| author := You; text := str "I enjoy coding" |}].
Proof.
  destruct turn_complete_flushes as [Hflush Hexample]. split.
  - exact (proj1 (Hflush 0%Q (with_turnComplete (with_input (str " hello ") no_content))
                    listening_session eq_refl)).
  - exact (Hexample 0%Q 0%Q 0%Q listening_session eq_refl eq_refl).
Defined.

(** ** Interruption *)

Lemma stopped_app l1 l2 : stopped (l1 ++ l2) = stopped l1 ++ stopped l2.
Proof. apply omap_app. Qed.

Lemma stopped_stops sources : stopped (map SourceStop sources) = sources.
Proof. induction sources as [|x l IH]; [reflexivity|]. cbn. now f_equal. Qed.

Lemma stopped_clear timer : stopped (clear_calls timer) = [].
Proof. destruct timer as [id|]; [|reflexivity]. cbn. now destruct (truthy_number id). Qed.

Lemma hear_playback message s :
  calls (hear message s) = calls s /\
  sourcesRef (hear message s) = sourcesRef s /\
  nextStartTimeRef (hear message s) = nextStartTimeRef s /\
  outputAudioContextRef (hear message s) = outputAudioContextRef s.
Proof.
  unfold hear.
  destruct (inputTranscription message), (outputTranscription message); fields; auto.
Qed.

Lemma flush_playback s :
  (exists stores,
     calls (flush s) = calls s ++ stores ++ [SetAIStatus Thinking] /\
     (stores = [] \/ exists history, stores = [SetItem LIVE_CONVO_STORAGE_KEY (Json history)])) /\
  sourcesRef (flush s) = sourcesRef s /\
  nextStartTimeRef (flush s) = nextStartTimeRef s /\
  outputAudioContextRef (flush s) = outputAudioContextRef s.
Proof.
  unfold flush, stored_with.
  match goal with |- context [(0 <? length ?l)%nat] => destruct (0 <? length l)%nat end;
    fields; (split; [|auto]).
  - eexists [_]. rewrite <- app_assoc. split; [reflexivity|]. right. now eexists.
  - exists []. split; [reflexivity|]. now left.
Qed.

(** What the first three blocks do to the call log and the active set. *)
Lemma before_interrupted now message s r s3 :
  onmessage_audio now message
    (if turnComplete message then flush (hear message s) else hear message s) = (Ok r, s3) ->
  exists earlier added,
    calls s3 = calls s ++ earlier /\ stopped earlier = [] /\
    sourcesRef s3 = sourcesRef s ++ added /\
    (length added <= 1)%nat /\
    (decoded message = None -> added = []).
Proof.
  rewrite onmessage_audio_eq.
  set (s2 := if turnComplete message then _ else _).
  assert (H2 : exists earlier,
             calls s2 = calls s ++ earlier /\ stopped earlier = [] /\
             sourcesRef s2 = sourcesRef s).
  { subst s2. destruct (hear_playback message s) as (Hc & Hs & _).
    destruct (turnComplete message).
    - destruct (flush_playback (hear message s)) as ((stores & Hf & Hst) & Hfs & _).
      exists (stores ++ [SetAIStatus Thinking]).
      rewrite Hf, Hc, Hfs, Hs. split; [reflexivity|]. split; [|reflexivity].
      destruct Hst as [-> | [history ->]]; reflexivity.
    - exists []. rewrite app_nil_r. auto. }
  destruct H2 as (earlier & Hcalls & Hquiet & Hsources).
  destruct (outputAudioContextRef s2), (decoded message) as [[audioBuffer|e]|];
    intros H; try discriminate; injection H as _ <-.
  1: { unfold play, speak; fields. rewrite Hcalls, Hsources, <- !app_assoc.
    eexists _, [_]. split; [reflexivity|].
    split; [|split; [reflexivity | split; [auto | discriminate]]].
    rewrite stopped_app, Hquiet. cbn [app].
    change (SetAIStatus Speaking :: ?l) with ([SetAIStatus Speaking] ++ l).
    rewrite !stopped_app, stopped_clear. reflexivity. }
  all: exists earlier, []; rewrite app_nil_r; cbn [length]; auto with arith.
Qed.

Lemma interrupt_effect s :
  calls (interrupt s) =
    calls s ++ clear_calls (aiSpeakingTimerRef s) ++ map SourceStop (sourcesRef s)
            ++ [SetAIStatus Listening] /\
  sourcesRef (interrupt s) = [] /\
  nextStartTimeRef (interrupt s) = 0%Q /\
  aiStatus (interrupt s) = Listening.
Proof. unfold interrupt; fields. auto. Qed.

Lemma stopped_interrupt timer sources :
  stopped (clear_calls timer ++ map SourceStop sources ++ [SetAIStatus Listening]) = sources.
Proof.
  rewrite !stopped_app, stopped_clear, stopped_stops. cbn. apply app_nil_r.
Qed.

(** When a message with the interrupted flag is handled to its end, every
    source of the active set is stopped, in the order of the set (together
    with the source of the chunk the same message carried, if any, and no
    other), the set is left empty and the cursor at zero.
    [handleInterruptSpeech] does the same on the user's behalf, from any
    state. *)
Theorem interruption_stops_all :
  (forall now message s s',
     interrupted message = true ->
     onmessage now message s = (Ok tt, s') ->
     exists added,
       stopped (since s s') = sourcesRef s ++ added /\
       (decoded message = None -> added = []) /\
       (length added <= 1)%nat /\
       sourcesRef s' = [] /\ nextStartTimeRef s' = 0%Q /\ aiStatus s' = Listening) /\
  (forall s,
     (handleInterruptSpeech s).1 = Ok tt /\
     stopped (since s (handleInterruptSpeech s).2) = sourcesRef s /\
     sourcesRef (handleInterruptSpeech s).2 = [] /\
     nextStartTimeRef (handleInterruptSpeech s).2 = 0%Q /\
     aiStatus (handleInterruptSpeech s).2 = Listening).
Proof.
  split.
  - intros now message s s' Hint. rewrite onmessage_eq. cbv zeta.
    destruct (onmessage_audio now message _) as [[r|e] s3] eqn:E; [|discriminate].
    intros H. injection H as <-. rewrite Hint.
    destruct (before_interrupted _ _ _ _ _ E) as (earlier & added & Hc & Hq & Hs & Hl & Hn).
    destruct (interrupt_effect s3) as (Hcalls & -> & -> & ->).
    exists added. repeat split; try assumption.
    rewrite (since_app s (interrupt s3)
               (earlier ++ clear_calls (aiSpeakingTimerRef s3)
                        ++ map SourceStop (sourcesRef s3) ++ [SetAIStatus Listening])).
    + now rewrite stopped_app, Hq, stopped_interrupt, Hs.
    + now rewrite Hcalls, Hc, <- app_assoc.
  - intros s. rewrite handleInterruptSpeech_eq. cbn [fst snd].
    destruct (interrupt_effect s) as (Hcalls & Hs & Hc & Ha).
    split; [reflexivity|]. split; [|fields; auto].
    rewrite (since_app s _ (clear_calls (aiSpeakingTimerRef s)
                              ++ map SourceStop (sourcesRef s) ++ [SetAIStatus Listening])).
    + apply stopped_interrupt.
    + fields. exact Hcalls.
Qed.

Lemma interruption_stops_all_witness :
  exists added,
    stopped (since speaking_session
               (onmessage 0%Q (with_interrupted no_content) speaking_session).2)
    = sourcesRef speaking_session ++ added /\
    added = [] /\
    sourcesRef (onmessage 0%Q (with_interrupted no_content) speaking_session).2 = [].
Proof.
  destruct interruption_stops_all as [Hremote _].
  destruct (Hremote 0%Q (with_interrupted no_content) speaking_session
              (onmessage 0%Q (with_interrupted no_content) speaking_session).2
              eq_refl eq_refl)
    as (added & Hstopped & Hnone & _ & Hempty & _).
  exists added. split; [exact Hstopped|]. split; [exact (Hnone eq_refl) | exact Hempty].
Defined.

(** ** The playback schedule *)

Lemma scheduled_app s s' l :
  calls s' = calls s ++ l ->
  scheduled s' =
    scheduled s ++ omap (fun c => match c with
                                  | SourceStart source start =>
                                      Some (start, duration (buffer source))
                                  | _ => None
                                  end) l.
Proof. intros H. unfold scheduled. rewrite H. apply omap_app. Qed.

Lemma bind_inv_ok {A B} (m : M A) (k : A -> M B) s b s' :
  (m ≫= k) s = (Ok b, s') ->
  exists a s1, m s = (Ok a, s1) /\ k a s1 = (Ok b, s').
Proof.
  unfold mbind, M_bind, bind. destruct (m s) as [[a|e] s1]; [|discriminate].
  intros H. now exists a, s1.
Qed.

Lemma plan_app cursor l1 l2 :
  plan cursor (l1 ++ l2) = plan cursor l1 ++ plan (plan_cursor cursor l1) l2.
Proof.
  revert cursor. induction l1 as [|[now d] l1 IH]; intros cursor; [reflexivity|].
  cbn [app plan plan_cursor]. now rewrite IH.
Qed.

Lemma plan_cursor_app cursor l1 l2 :
  plan_cursor cursor (l1 ++ l2) = plan_cursor (plan_cursor cursor l1) l2.
Proof.
  revert cursor. induction l1 as [|[now d] l1 IH]; intros cursor; [reflexivity|].
  cbn [app plan_cursor]. now rewrite IH.
Qed.

(** Each planned start is its chunk's, and not before its clock reading. *)
Lemma plan_lookup (chunks : list (Q * Q)) cursor i now d :
  chunks !! i = Some (now, d) ->
  exists start, plan cursor chunks !! i = Some (start, d) /\ (now <= start)%Q.
Proof.
  revert cursor i. induction chunks as [|[now0 d0] chunks IH]; intros cursor i H.
  - discriminate.
  - destruct i as [|i]; cbn in H |- *.
    + injection H as -> ->. eexists. split; [reflexivity | apply Q.le_max_r].
    + now apply IH.
Qed.

Lemma plan_source (chunks : list (Q * Q)) cursor i start d :
  plan cursor chunks !! i = Some (start, d) ->
  exists now, chunks !! i = Some (now, d).
Proof.
  revert cursor i. induction chunks as [|[now0 d0] chunks IH]; intros cursor i H.
  - discriminate.
  - destruct i as [|i]; cbn in H |- *.
    + injection H as _ ->. now eexists.
    + now apply IH in H.
Qed.

(** A planned chunk starts when the one before it has ended, or later. *)
Lemma plan_consecutive (chunks : list (Q * Q)) cursor i t1 d1 t2 d2 :
  plan cursor chunks !! i = Some (t1, d1) ->
  plan cursor chunks !! S i = Some (t2, d2) ->
  (t1 + d1 <= t2)%Q.
Proof.
  revert cursor i. induction chunks as [|[now0 d0] chunks IH]; intros cursor i H1 H2.
  - discriminate.
  - destruct i as [|i]; cbn in H1, H2.
    + injection H1 as <- <-. destruct chunks as [|[now1 d1'] chunks]; [discriminate|].
      cbn in H2. injection H2 as <- _. apply Q.le_max_l.
    + exact (IH _ i H1 H2).
Qed.

Lemma decoded_duration data audioBuffer :
  decodeAudioData data 24000 1 = Ok audioBuffer -> (0 < duration audioBuffer)%Q.
Proof.
  unfold decodeAudioData. destruct (int16_view data) as [samples|e]; [|discriminate].
  cbn [rbind]. rewrite Nat.div_1_r.
  destruct (Nat.eqb_spec (length samples) 0) as [E|E]; cbn [orb Nat.eqb]; [discriminate|].
  change (24000 <=? 0)%Z with false. cbv iota.
  intros H. injection H as <-. unfold duration. cbn [frames bufferRate].
  unfold Qlt, Qdiv, Qmult, Qinv, inject_Z. cbn. lia.
Qed.

Lemma chunk_of_positive arrival now d :
  In (now, d) (chunk_of arrival) -> (0 < d)%Q.
Proof.
  unfold chunk_of, decoded.
  destruct (audioData arrival.2) as [base64|]; [|contradiction].
  destruct (truthy_string base64); [|contradiction].
  destruct (decode base64) as [bytes|e]; cbn [rbind]; [|contradiction].
  destruct (decodeAudioData bytes 24000 1) as [audioBuffer|e] eqn:E; [|contradiction].
  intros [H|[]]. injection H as _ <-. now apply (decoded_duration bytes).
Qed.

Lemma starts_clear timer :
  omap (fun c => match c with
                 | SourceStart source start => Some (start, duration (buffer source))
                 | _ => None
                 end) (clear_calls timer) = [].
Proof. destruct timer as [id|]; [|reflexivity]. cbn. now destruct (truthy_number id). Qed.

(** One message: its chunk, if it has one, is started at the later of the
    cursor and the clock, and the cursor moves to the end of the chunk. *)
Lemma onmessage_schedule now message s s' :
  interrupted message = false ->
  is_Some (outputAudioContextRef s) ->
  onmessage now message s = (Ok tt, s') ->
  scheduled s' = scheduled s ++ plan (nextStartTimeRef s) (chunk_of (now, message)) /\
  nextStartTimeRef s' = plan_cursor (nextStartTimeRef s) (chunk_of (now, message)) /\
  outputAudioContextRef s' = outputAudioContextRef s.
Proof.
  intros Hint [ctx Hctx]. rewrite onmessage_eq. cbv zeta. rewrite Hint, onmessage_audio_eq.
  set (s2 := if turnComplete message then _ else _).
  assert (H2 : scheduled s2 = scheduled s /\ nextStartTimeRef s2 = nextStartTimeRef s /\
               outputAudioContextRef s2 = outputAudioContextRef s).
  { subst s2. destruct (hear_playback message s) as (Hc & _ & Hn & Ho).
    destruct (turnComplete message).
    - destruct (flush_playback (hear message s)) as ((stores & Hf & Hst) & _ & Hfn & Hfo).
      rewrite Hfn, Hfo, Hn, Ho. split; [|auto].
      rewrite (scheduled_app (hear message s) _ _ Hf). unfold scheduled. rewrite Hc.
      destruct Hst as [-> | [history ->]]; cbn; apply app_nil_r.
    - unfold scheduled. rewrite Hc. auto. }
  destruct H2 as (Hsched & Hcursor & Hout).
  assert (Hctx2 : outputAudioContextRef s2 = Some ctx) by congruence.
  rewrite Hctx2, <- Hsched, <- Hcursor, <- Hout. unfold chunk_of. cbn [fst snd].
  destruct (decoded message) as [[audioBuffer|e]|]; intros H; try discriminate;
    injection H as <-; cbn [plan plan_cursor].
  - split; [|unfold play, speak; fields; auto].
    erewrite (scheduled_app s2); [|unfold play, speak; fields; rewrite <- app_assoc; reflexivity].
    change (SetAIStatus Speaking :: ?l) with ([SetAIStatus Speaking] ++ l).
    rewrite !omap_app, starts_clear. reflexivity.
  - rewrite app_nil_r. auto.
Qed.

Lemma handle_all_schedule arrivals s s' :
  Forall (fun arrival => interrupted arrival.2 = false) arrivals ->
  is_Some (outputAudioContextRef s) ->
  handle_all arrivals s = (Ok tt, s') ->
  scheduled s' = scheduled s ++ plan (nextStartTimeRef s) (flat_map chunk_of arrivals) /\
  nextStartTimeRef s' = plan_cursor (nextStartTimeRef s) (flat_map chunk_of arrivals).
Proof.
  intros Hquiet. revert s. induction Hquiet as [|[now message] arrivals Hint _ IH];
    intros s Hctx H.
  - injection H as <-. cbn. now rewrite app_nil_r.
  - unfold handle_all in H. cbn [forEach fst snd] in H. cbn [fst snd] in Hint.
    apply bind_inv_ok in H. destruct H as ([] & s1 & H1 & Hrest).
    destruct (onmessage_schedule _ _ _ _ Hint Hctx H1) as (Hs & Hc & Ho).
    rewrite <- Ho in Hctx. destruct (IH s1 Hctx Hrest) as (Hs' & Hc').
    cbn [flat_map]. rewrite plan_app, plan_cursor_app, <- Hc.
    split; [|exact Hc']. now rewrite Hs', Hs, <- app_assoc.
Qed.

(** C3.  Messages handled one after the other with no interruption among
    them: the buffers they start are those of the plan that starts each chunk
    at the later of the cursor and the output clock and then moves the cursor
    by the chunk's duration.  So each chunk starts no earlier than the clock
    reading at its arrival, no earlier than the end of the chunk before it, and
    start times do not decrease. *)
Theorem playback_schedule (arrivals : list (Q * LiveServerMessage)) s s' :
  Forall (fun arrival => interrupted arrival.2 = false) arrivals ->
  is_Some (outputAudioContextRef s) ->
  handle_all arrivals s = (Ok tt, s') ->
  let chunks := flat_map chunk_of arrivals in
  let starts := plan (nextStartTimeRef s) chunks in
  scheduled s' = scheduled s ++ starts /\
  nextStartTimeRef s' = plan_cursor (nextStartTimeRef s) chunks /\
  (forall i now d, chunks !! i = Some (now, d) ->
     exists start, starts !! i = Some (start, d) /\ (now <= start)%Q) /\
  (forall i t1 d1 t2 d2,
     starts !! i = Some (t1, d1) -> starts !! S i = Some (t2, d2) ->
     (t1 + d1 <= t2)%Q /\ (t1 <= t2)%Q).
Proof.
  intros Hquiet Hctx H. cbv zeta.
  destruct (handle_all_schedule _ _ _ Hquiet Hctx H) as (Hs & Hc).
  split; [exact Hs|]. split; [exact Hc|]. split.
  - intros i now d. apply plan_lookup.
  - intros i t1 d1 t2 d2 H1 H2.
    pose proof (plan_consecutive _ _ _ _ _ _ _ H1 H2) as Hle.
    split; [exact Hle|].
    destruct (plan_source _ _ _ _ _ H1) as (now & Hnow).
    apply list_elem_of_lookup_2, list_elem_of_In, in_flat_map in Hnow.
    destruct Hnow as (arrival & _ & Hin).
    apply chunk_of_positive in Hin. lra.
Qed.

Lemma playback_schedule_witness :
  scheduled
    (handle_all [((1 # 2)%Q, with_audio two_samples no_content);
                 ((1 # 2)%Q, with_audio two_samples no_content)] listening_session).2
  = [((1 # 2)%Q, (2 # 24000)%Q);
     (Qmax (Qmax 0 (1 # 2) + (2 # 24000)) (1 # 2), (2 # 24000)%Q)].
Proof.
  assert (Hquiet : Forall (fun arrival : Q * LiveServerMessage => interrupted arrival.2 = false)
                     [((1 # 2)%Q, with_audio two_samples no_content);
                      ((1 # 2)%Q, with_audio two_samples no_content)])
    by (repeat constructor).
  assert (Hctx : is_Some (outputAudioContextRef listening_session))
    by (eexists; reflexivity).
  assert (Hrun : handle_all [((1 # 2)%Q, with_audio two_samples no_content);
                             ((1 # 2)%Q, with_audio two_samples no_content)]
                   listening_session
                 = (Ok tt,
                    (handle_all [((1 # 2)%Q, with_audio two_samples no_content);
                                 ((1 # 2)%Q, with_audio two_samples no_content)]
                       listening_session).2))
    by (vm_compute; reflexivity).
  exact (proj1 (playback_schedule _ listening_session _ Hquiet Hctx Hrun)).
Defined.

(** ** The other callbacks in closed form *)

Lemma startConversation_ok stream s :
  exists s',
    startConversation (Ok stream) s = (Ok tt, s') /\
    aiStatus s' = Connecting /\ error s' = None /\
    transcription s' = [] /\ localStorage s' = localStorage s /\
    calls s' = calls s ++ [SetAIStatus Connecting] /\
    sessionPromiseRef s' = Some (fresh s + 2)%Z /\
    is_Some (outputAudioContextRef s') /\
    mediaStreamRef s' = Some stream /\
    timers s' = timers s /\ aiSpeakingTimerRef s' = aiSpeakingTimerRef s /\
    fresh s' = (fresh s + 3)%Z /\ nextStartTimeRef s' = 0%Q /\
    sourcesRef s' = sourcesRef s.
Proof.
  destruct s as [st er tr ic oc se ms sp so ci co ns ti tm fr ls cs].
  unfold startConversation, setAIStatus, setError, setTranscription, store_effect,
    newAudioContext, startLiveSession, try_catch, when.
  mrun. cbn [length Nat.ltb Nat.leb]. mrun. rewrite bind_lift. mrun.
  eexists. split; [reflexivity|]. norm_state.
  rewrite <- !Z.add_assoc. repeat split. now eexists.
Qed.

Lemma onopen_effect s :
  exists s',
    onopen s = (Ok tt, s') /\
    aiStatus s' = Listening /\
    (exists wiring, calls s' = calls s ++ SetAIStatus Listening :: wiring /\
       forall st, ~ In (SetAIStatus st) wiring) /\
    sessionPromiseRef s' = sessionPromiseRef s /\
    outputAudioContextRef s' = outputAudioContextRef s /\
    scriptProcessorRef s' = Some (fresh s + 1)%Z /\
    timers s' = timers s /\ aiSpeakingTimerRef s' = aiSpeakingTimerRef s /\
    fresh s' = (fresh s + 2)%Z /\
    transcription s' = transcription s /\ localStorage s' = localStorage s.
Proof.
  destruct s as [st er tr ic oc se ms sp so ci co ns ti tm fr ls cs].
  unfold onopen, setAIStatus. mrun.
  eexists. split; [reflexivity|]. norm_state.
  rewrite <- !app_assoc, <- !Z.add_assoc. cbn [app].
  split; [reflexivity|]. split; [|now repeat split].
  eexists. split; [reflexivity|].
  intros st' H. cbn in H. intuition discriminate.
Qed.

Lemma onaudioprocess_eq inputData s :
  exists payload,
    encode (uint8_view (map (fun x => to_int16 (x * 32768)%Q) inputData)) = Ok payload /\
    decode payload = Ok (uint8_view (map (fun x => to_int16 (x * 32768)%Q) inputData)) /\
    onaudioprocess inputData s =
      (Ok tt,
       match sessionPromiseRef s with
       | Some session =>
           set_calls (calls s ++ [SendRealtimeInput session
                                    {| data := payload;
                                       mimeType := "audio/pcm;rate=16000" |}]) s
       | None => s
       end).
Proof.
  destruct (encode_decode (uint8_view (map (fun x => to_int16 (x * 32768)%Q) inputData)))
    as (payload & Henc & Hdec).
  exists payload. split; [exact Henc|]. split; [exact Hdec|].
  unfold onaudioprocess. cbv zeta. rewrite bind_lift, Henc. mrun.
  now destruct (sessionPromiseRef s).
Qed.

Lemma onerror_eq s :
  exists s1,
    onerror s = (Ok tt, cleaned s1) /\
    aiSpeakingTimerRef s1 = aiSpeakingTimerRef s /\ timers s1 = timers s /\
    fresh s1 = fresh s /\ transcription s1 = transcription s /\
    localStorage s1 = localStorage s.
Proof.
  destruct s as [st er tr ic oc se ms sp so ci co ns ti tm fr ls cs].
  unfold onerror, setAIStatus, setError. mrun. rewrite cleanup_eq.
  eexists. split; [reflexivity|]. now norm_state.
Qed.

Lemma mount_effect s :
  exists s',
    mount s = (Ok tt, s') /\
    aiStatus s' = aiStatus s /\ sessionPromiseRef s' = sessionPromiseRef s /\
    timers s' = timers s /\ aiSpeakingTimerRef s' = aiSpeakingTimerRef s /\
    fresh s' = fresh s /\
    (forall st, ~ In (SetAIStatus st) (since s s')) /\
    match localStorage s !! LIVE_CONVO_STORAGE_KEY with
    | Some (Json l) =>
        transcription s' = l /\
        localStorage s' !! LIVE_CONVO_STORAGE_KEY = Some (Json l)
    | _ => transcription s' = transcription s /\ localStorage s' = localStorage s
    end.
Proof.
  destruct s as [st er tr ic oc se ms sp so ci co ns ti tm fr ls cs].
  unfold mount, setTranscription, store_effect, when. mrun.
  destruct (ls !! LIVE_CONVO_STORAGE_KEY) as [[l|t]|] eqn:E; mrun.
  - destruct l as [|entry l]; cbn [length Nat.ltb Nat.leb]; mrun;
      (eexists; split; [reflexivity|]); norm_state; repeat split; auto.
    + unfold since; norm_state. rewrite drop_all. now intros st' [].
    + unfold since; norm_state. rewrite drop_app_length.
      intros st' H. cbn in H. intuition discriminate.
    + apply lookup_insert_eq.
  - destruct (truthy_string t); mrun;
      (eexists; split; [reflexivity|]); norm_state; repeat split; auto.
    + unfold since; norm_state. rewrite drop_app_length.
      intros st' H. cbn in H. intuition discriminate.
    + unfold since; norm_state. rewrite drop_all. now intros st' [].
  - eexists; split; [reflexivity|]; norm_state; repeat split; auto.
    unfold since; norm_state. rewrite drop_all. now intros st' [].
Qed.

Lemma start_denied_eq e s :
  exists s1,
    startConversation (Throw e) s = (Ok tt, cleaned s1) /\
    aiSpeakingTimerRef s1 = aiSpeakingTimerRef s /\ timers s1 = timers s /\
    fresh s1 = fresh s.
Proof.
  destruct s as [st er tr ic oc se ms sp so ci co ns ti tm fr ls cs].
  unfold startConversation, setAIStatus, setError, setTranscription, store_effect,
    try_catch, when.
  mrun. cbn [length Nat.ltb Nat.leb]. mrun. rewrite bind_lift. mrun.
  rewrite cleanup_eq. eexists. split; [reflexivity|]. now norm_state.
Qed.

(** ** The session invariant *)

Lemma cleared_covered timer pending :
  pending = [] \/ (exists id, pending = [id] /\ timer = Some id /\ id ≠ 0%Z) ->
  cleared timer pending = [].
Proof.
  intros [-> | (id & -> & -> & Hid)]; unfold cleared.
  - destruct timer as [id|]; [destruct (truthy_number id)|]; reflexivity.
  - rewrite truthy_number_true by assumption.
    rewrite filter_cons. destruct (decide (id ≠ id)); [contradiction | reflexivity].
Qed.

Lemma session_inv_timers s :
  session_inv s ->
  timers s = [] \/ (exists id, timers s = [id] /\ aiSpeakingTimerRef s = Some id /\ id ≠ 0%Z).
Proof.
  intros (_ & [H | (id & H1 & H2 & H3 & _)] & _); [now left | right; now exists id].
Qed.

Lemma session_inv_initial store : session_inv (initial store).
Proof. unfold session_inv; cbn. split; [discriminate|]. split; [now left | lia]. Qed.

(** The invariant only looks at five fields. *)
Lemma session_inv_same s s' :
  aiStatus s' = aiStatus s -> sessionPromiseRef s' = sessionPromiseRef s ->
  timers s' = timers s -> aiSpeakingTimerRef s' = aiSpeakingTimerRef s ->
  fresh s' = fresh s ->
  session_inv s -> session_inv s'.
Proof. unfold session_inv. now intros -> -> -> -> ->. Qed.

Lemma session_inv_cleaned s :
  timers s = [] \/ (exists id, timers s = [id] /\ aiSpeakingTimerRef s = Some id /\ id ≠ 0%Z) ->
  (1 <= fresh s)%Z ->
  session_inv (cleaned s).
Proof.
  intros Ht Hf. unfold session_inv, cleaned; fields.
  split; [discriminate|]. split; [|exact Hf]. left. now apply cleared_covered.
Qed.

Lemma session_inv_hear message s :
  session_inv s -> session_inv (hear message s).
Proof.
  apply session_inv_same; unfold hear;
    destruct (inputTranscription message), (outputTranscription message); reflexivity.
Qed.

Lemma flush_control s :
  aiStatus (flush s) = Thinking /\ sessionPromiseRef (flush s) = sessionPromiseRef s /\
  timers (flush s) = timers s /\ aiSpeakingTimerRef (flush s) = aiSpeakingTimerRef s /\
  fresh (flush s) = fresh s.
Proof.
  unfold flush, stored_with.
  match goal with |- context [(0 <? length ?l)%nat] => destruct (0 <? length l)%nat end;
    fields; auto.
Qed.

Lemma session_inv_flush s :
  is_Some (sessionPromiseRef s) -> session_inv s -> session_inv (flush s).
Proof.
  intros Hs (_ & Ht & Hf). destruct (flush_control s) as (Ha & Hp & Htm & Hr & Hfr).
  unfold session_inv. rewrite Ha, Hp, Htm, Hr, Hfr. auto.
Qed.

Lemma session_inv_speak now s :
  is_Some (sessionPromiseRef s) -> session_inv s ->
  session_inv (speak now s) /\ timers (speak now s) = [].
Proof.
  intros Hs Hinv. pose proof (cleared_covered _ _ (session_inv_timers s Hinv)) as Hc.
  destruct Hinv as (_ & _ & Hf). unfold session_inv, speak; fields. rewrite Hc. auto.
Qed.

Lemma session_inv_play audioBuffer s :
  is_Some (sessionPromiseRef s) -> timers s = [] -> session_inv s ->
  session_inv (play audioBuffer s).
Proof.
  intros Hs Ht (Ha & _ & Hf). unfold session_inv, play; fields. rewrite Ht.
  split; [auto|]. split; [|lia]. right. exists (fresh s + 1)%Z.
  repeat split; auto. lia.
Qed.

Lemma session_inv_interrupt s :
  is_Some (sessionPromiseRef s) -> session_inv s -> session_inv (interrupt s).
Proof.
  intros Hs Hinv. pose proof (cleared_covered _ _ (session_inv_timers s Hinv)) as Hc.
  destruct Hinv as (_ & _ & Hf). unfold session_inv, interrupt; fields. rewrite Hc. auto.
Qed.

Lemma blocks_session now message s :
  sessionPromiseRef (hear message s) = sessionPromiseRef s /\
  sessionPromiseRef (flush s) = sessionPromiseRef s /\
  sessionPromiseRef (speak now s) = sessionPromiseRef s /\
  (forall audioBuffer, sessionPromiseRef (play audioBuffer s) = sessionPromiseRef s) /\
  sessionPromiseRef (interrupt s) = sessionPromiseRef s.
Proof.
  split; [unfold hear; destruct (inputTranscription message),
            (outputTranscription message); reflexivity|].
  split; [apply flush_control|]. now repeat split.
Qed.

Lemma session_inv_onmessage now message s :
  is_Some (sessionPromiseRef s) -> session_inv s ->
  session_inv (onmessage now message s).2 /\
  is_Some (sessionPromiseRef (onmessage now message s).2).
Proof.
  intros Hs Hinv. rewrite onmessage_eq. cbv zeta. rewrite onmessage_audio_eq.
  set (s2 := if turnComplete message then _ else _).
  assert (H2 : session_inv s2 /\ is_Some (sessionPromiseRef s2)).
  { subst s2. pose proof (session_inv_hear message s Hinv) as Hh.
    destruct (blocks_session now message s) as (Hsh & _).
    destruct (turnComplete message).
    - destruct (blocks_session now message (hear message s)) as (_ & Hsf & _).
      rewrite Hsf, Hsh. split; [|exact Hs]. apply session_inv_flush; [|exact Hh].
      now rewrite Hsh.
    - now rewrite Hsh. }
  destruct H2 as (Hinv2 & Hs2).
  assert (Hint : forall s3, session_inv s3 -> is_Some (sessionPromiseRef s3) ->
            session_inv (if interrupted message then interrupt s3 else s3) /\
            is_Some (sessionPromiseRef (if interrupted message then interrupt s3 else s3))).
  { intros s3 Hinv3 Hs3. destruct (interrupted message); [|auto].
    split; [now apply session_inv_interrupt | exact Hs3]. }
  destruct (outputAudioContextRef s2), (decoded message) as [[audioBuffer|e]|]; cbn [snd];
    try (now apply Hint).
  - destruct (session_inv_speak now s2 Hs2 Hinv2) as (Hsp & Htm).
    apply Hint.
    + apply session_inv_play; [exact Hs2 | exact Htm | exact Hsp].
    + exact Hs2.
  - split; [|exact Hs2]. now apply session_inv_speak.
Qed.

Lemma in_singleton_timer (id t : Z) : id ∈ [t] -> filter (fun x => x ≠ id) [t] = [].
Proof.
  intros H. apply list_elem_of_singleton in H. subst t.
  rewrite filter_cons. destruct (decide (id ≠ id)); [contradiction | reflexivity].
Qed.

(** Every callback the event loop runs keeps the invariant. *)
Lemma session_inv_step s ev : session_inv s -> session_inv (step s ev).
Proof.
  intros Hinv. unfold step. destruct (enabled s ev) eqn:Hen; [|exact Hinv].
  pose proof (session_inv_timers s Hinv) as Ht.
  pose proof Hinv as (Hactive & _ & Hfresh).
  destruct ev as [| |microphone| |now message| | |inputData|id|source]; cbn [handler].
  - destruct (mount_effect s) as (s' & -> & Ha & Hs & Htm & Hr & Hf & _). cbn [snd].
    now apply (session_inv_same s).
  - unfold unmount. rewrite cleanup_eq. now apply session_inv_cleaned.
  - unfold handleControlButtonClick. rewrite bind_gets.
    destruct (aiStatus s) eqn:Hst; cbn [isSessionActive];
      rewrite ?cleanup_eq, ?handleInterruptSpeech_eq; cbn [snd];
      try (now apply session_inv_cleaned).
    + destruct microphone as [stream|e].
      * destruct (startConversation_ok stream s)
          as (s' & -> & Ha & _ & _ & _ & _ & Hs & _ & _ & Htm & Hr & Hf & _).
        cbn [snd]. unfold session_inv. rewrite Ha, Hs, Htm, Hr, Hf.
        split; [discriminate|]. split; [|lia].
        destruct Ht as [Ht | (id & H1 & H2 & H3)]; [now left|].
        right. exists id. repeat split; auto.
      * destruct (start_denied_eq e s) as (s1 & -> & Hr & Htm & Hf). cbn [snd].
        apply session_inv_cleaned; [now rewrite Hr, Htm | now rewrite Hf].
    + cbn in Hen. rewrite Hst in Hen. vm_compute in Hen. discriminate.
    + assert (Hs : is_Some (sessionPromiseRef s)) by (apply Hactive; reflexivity).
      pose proof (cleared_covered _ _ Ht) as Hc.
      unfold session_inv, interrupt; fields. rewrite Hc. auto.
    + destruct microphone as [stream|e].
      * destruct (startConversation_ok stream s)
          as (s' & -> & Ha & _ & _ & _ & _ & Hs & _ & _ & Htm & Hr & Hf & _).
        cbn [snd]. unfold session_inv. rewrite Ha, Hs, Htm, Hr, Hf.
        split; [discriminate|]. split; [|lia].
        destruct Ht as [Ht | (id & H1 & H2 & H3)]; [now left|].
        right. exists id. repeat split; auto.
      * destruct (start_denied_eq e s) as (s1 & -> & Hr & Htm & Hf). cbn [snd].
        apply session_inv_cleaned; [now rewrite Hr, Htm | now rewrite Hf].
  - cbn in Hen. apply bool_decide_eq_true in Hen.
    destruct (onopen_effect s) as (s' & -> & Ha & _ & Hs & _ & _ & Htm & Hr & Hf & _).
    cbn [snd]. unfold session_inv. rewrite Ha, Hs, Htm, Hr, Hf.
    split; [auto|]. split; [|lia].
    destruct Ht as [Ht | (id & H1 & H2 & H3)]; [now left|].
    right. exists id. repeat split; auto.
  - cbn in Hen. apply bool_decide_eq_true in Hen.
    now apply session_inv_onmessage.
  - destruct (onerror_eq s) as (s1 & -> & Hr & Htm & Hf & _). cbn [snd].
    apply session_inv_cleaned; [now rewrite Hr, Htm | now rewrite Hf].
  - unfold onclose. rewrite cleanup_eq. now apply session_inv_cleaned.
  - destruct (onaudioprocess_eq inputData s) as (payload & _ & _ & ->). cbn [snd].
    destruct (sessionPromiseRef s) eqn:E; [|exact Hinv].
    revert Hinv. apply session_inv_same; fields; auto.
  - cbn in Hen. apply bool_decide_eq_true in Hen.
    unfold onSpeakingTimer, setAIStatus. mrun. cbn [snd].
    destruct Ht as [Ht | (id' & H1 & H2 & H3)].
    + rewrite Ht in Hen. now apply not_elem_of_nil in Hen.
    + destruct Hinv as (_ & [Hnil | (id2 & E1 & E2 & E3 & Hs)] & _);
        [rewrite Hnil in H1; discriminate|].
      rewrite E1 in Hen. unfold session_inv; fields.
      rewrite E1, (in_singleton_timer _ _ Hen). auto.
  - unfold onended. rewrite run_modify. cbn [snd].
    revert Hinv. apply session_inv_same; reflexivity.
Qed.

Lemma session_inv_run s evs : session_inv s -> session_inv (run s evs).
Proof.
  revert s. induction evs as [|ev evs IH]; intros s H; [exact H|].
  apply IH. now apply session_inv_step.
Qed.

(** ** The capture pipeline *)

Lemma byte_pair v :
  (-32768 <= v < 32768)%Z ->
  wrap16 (Z.of_N (Byte.to_N (to_uint8 (Z.to_N (v mod 256))))
          + 256 * Z.of_N (Byte.to_N (to_uint8 (Z.to_N ((v / 256) mod 256)))))%Z = v.
Proof.
  intros Hv. rewrite !to_N_to_uint8.
  pose proof (Z.mod_pos_bound v 256 eq_refl) as Hlo.
  pose proof (Z.mod_pos_bound (v / 256) 256 eq_refl) as Hhi.
  rewrite !N.mod_small by lia. rewrite !Z2N.id by lia.
  unfold wrap16. Z.to_euclidean_division_equations. lia.
Qed.

(** The bytes of 16-bit samples read back as the samples. *)
Lemma int16_uint8_view samples :
  Forall (fun v => -32768 <= v < 32768)%Z samples ->
  int16_view (uint8_view samples) = Ok samples.
Proof.
  induction 1 as [|v samples Hv _ IH]; [reflexivity|].
  unfold uint8_view in *. cbn [flat_map app int16_view]. rewrite IH. cbn [rbind].
  now rewrite byte_pair.
Qed.

Lemma truncate_scaled x :
  (-1 <= x)%Q -> (x < 1)%Q -> (-32768 <= truncate (x * 32768) < 32768)%Z.
Proof.
  destruct x as [n d]. unfold Qle, Qlt, truncate. cbn.
  intros Hlo Hhi. rewrite Pos.mul_1_r. split.
  - apply Z.quot_le_lower_bound; lia.
  - destruct (Z.le_gt_cases 0 n) as [Hn|Hn].
    + apply Z.quot_lt_upper_bound; lia.
    + apply Z.le_lt_trans with 0%Z; [|lia].
      apply Z.quot_le_upper_bound; lia.
Qed.

Lemma to_int16_spec x :
  (-32768 <= to_int16 (x * 32768) < 32768)%Z /\
  ((to_int16 (x * 32768) - truncate (x * 32768)) mod 65536 = 0)%Z /\
  ((-1 <= x)%Q -> (x < 1)%Q -> to_int16 (x * 32768) = truncate (x * 32768)).
Proof.
  unfold to_int16. split; [apply wrap16_range|]. split.
  - unfold wrap16. Z.to_euclidean_division_equations. lia.
  - intros Hlo Hhi. apply wrap16_small. now apply truncate_scaled.
Qed.

(** C6.  In every state the event loop reaches with the status [Listening],
    the session is held, and a capture frame makes exactly one call:
    [sendRealtimeInput] with the MIME type [audio/pcm;rate=16000] and, as data,
    the base64 text of the frame's 16-bit samples, low byte first.  Sample [x]
    becomes [x * 32768] without its fraction, kept modulo 2^16 in the signed
    range: the value itself for [-1 <= x < 1], and [-32768] for [x = 1]. *)
Theorem capture_frame_sent store evs inputData :
  aiStatus (run (initial store) evs) = Listening ->
  let s := run (initial store) evs in
  let samples := map (fun x => to_int16 (x * 32768)%Q) inputData in
  exists session payload,
    sessionPromiseRef s = Some session /\
    encode (uint8_view samples) = Ok payload /\
    onaudioprocess inputData s =
      (Ok tt,
       set_calls (calls s ++ [SendRealtimeInput session
                                {| data := payload;
                                   mimeType := "audio/pcm;rate=16000" |}]) s) /\
    decode payload = Ok (uint8_view samples) /\
    int16_view (uint8_view samples) = Ok samples /\
    Forall (fun x =>
              (-32768 <= to_int16 (x * 32768) < 32768)%Z /\
              ((to_int16 (x * 32768) - truncate (x * 32768)) mod 65536 = 0)%Z /\
              ((-1 <= x)%Q -> (x < 1)%Q -> to_int16 (x * 32768) = truncate (x * 32768)))
           inputData /\
    to_int16 (1 * 32768) = (-32768)%Z.
Proof.
  intros Hst. cbv zeta.
  pose proof (session_inv_run _ evs (session_inv_initial store)) as (Hactive & _).
  destruct Hactive as [session Hsession]; [now rewrite Hst|].
  destruct (onaudioprocess_eq inputData (run (initial store) evs))
    as (payload & Henc & Hdec & Hrun).
  exists session, payload. rewrite Hsession in Hrun.
  split; [exact Hsession|]. split; [exact Henc|]. split; [exact Hrun|].
  split; [exact Hdec|]. split; [|split; [|reflexivity]].
  - apply int16_uint8_view, Forall_map, Forall_true. intros x. apply to_int16_spec.
  - apply Forall_true. intros x. apply to_int16_spec.
Qed.

Lemma capture_frame_sent_witness :
  exists session payload,
    sessionPromiseRef listening_session = Some session /\
    encode (uint8_view [16384%Z; (-32768)%Z]) = Ok payload /\
    onaudioprocess [(1 # 2)%Q; 1%Q] listening_session =
      (Ok tt,
       set_calls (calls listening_session
                  ++ [SendRealtimeInput session
                        {| data := payload; mimeType := "audio/pcm;rate=16000" |}])
         listening_session).
Proof.
  assert (Hst : aiStatus (run (initial ∅) [Mount; Click (Ok [70%Z]); SessionOpen])
                = Listening) by (vm_compute; reflexivity).
  destruct (capture_frame_sent ∅ [Mount; Click (Ok [70%Z]); SessionOpen]
              [(1 # 2)%Q; 1%Q] Hst)
    as (session & payload & Hs & He & Hrun & _).
  exists session, payload. split; [exact Hs|]. split; [exact He | exact Hrun].
Defined.

(** ** The statuses of a turn *)

Lemma status_writes_app s s' l :
  calls s' = calls s ++ l -> status_writes s' = status_writes s ++ omap status_of l.
Proof. intros H. unfold status_writes. rewrite H. apply omap_app. Qed.

Lemma status_of_clear timer : omap status_of (clear_calls timer) = [].
Proof. destruct timer as [id|]; [|reflexivity]. cbn. now destruct (truthy_number id). Qed.

Lemma dedup_same st n l :
  dedup_adjacent st (replicate n st ++ l) = dedup_adjacent st l.
Proof.
  induction n as [|n IH]; [reflexivity|]. cbn.
  now rewrite bool_decide_eq_true_2.
Qed.

Lemma mount_status s :
  status_writes (mount s).2 = status_writes s /\
  aiStatus (mount s).2 = aiStatus s /\
  sessionPromiseRef (mount s).2 = sessionPromiseRef s /\
  outputAudioContextRef (mount s).2 = outputAudioContextRef s /\
  timers (mount s).2 = timers s /\
  aiSpeakingTimerRef (mount s).2 = aiSpeakingTimerRef s /\
  fresh (mount s).2 = fresh s.
Proof.
  destruct s as [st er tr ic oc se ms sp so ci co ns ti tm fr ls cs].
  unfold mount, setTranscription, store_effect, when, status_writes. mrun.
  destruct (ls !! LIVE_CONVO_STORAGE_KEY) as [[[|entry l]|t]|];
    mrun; cbn [length Nat.ltb Nat.leb]; mrun;
    try (destruct (truthy_string t); mrun); cbn [snd]; norm_state;
    rewrite ?omap_app; cbn; rewrite ?app_nil_r; repeat split.
Qed.

(** An audio message handled while the session is held: one more
    [Speaking], one pending timer, the one the ref names. *)
Lemma audio_message_status now message s :
  audio_only (now, message) ->
  is_Some (outputAudioContextRef s) ->
  timers s = [] \/ (exists id, timers s = [id] /\ aiSpeakingTimerRef s = Some id /\ id ≠ 0%Z) ->
  (1 <= fresh s)%Z ->
  let s' := (onmessage now message s).2 in
  status_writes s' = status_writes s ++ [Speaking] /\
  sessionPromiseRef s' = sessionPromiseRef s /\
  outputAudioContextRef s' = outputAudioContextRef s /\
  timers s' = [(fresh s + 1)%Z] /\
  aiSpeakingTimerRef s' = Some (fresh s + 1)%Z /\
  fresh s' = (fresh s + 2)%Z.
Proof.
  intros (Htc & Hint & audioBuffer & Hdec) [ctx Hctx] Ht Hf. cbn [fst snd] in *.
  cbv zeta. rewrite onmessage_eq. cbv zeta. rewrite Htc, Hint, onmessage_audio_eq, Hdec.
  destruct (hear_playback message s) as (Hc & _ & _ & Ho).
  rewrite Ho, Hctx. cbn [snd].
  assert (Hh : aiSpeakingTimerRef (hear message s) = aiSpeakingTimerRef s /\
               timers (hear message s) = timers s /\ fresh (hear message s) = fresh s /\
               sessionPromiseRef (hear message s) = sessionPromiseRef s).
  { unfold hear. destruct (inputTranscription message), (outputTranscription message);
      fields; auto. }
  destruct Hh as (Hr & Htm & Hfr & Hs).
  split.
  - erewrite (status_writes_app (hear message s));
      [|unfold play, speak; fields; rewrite <- app_assoc; reflexivity].
    unfold status_writes at 1. rewrite Hc.
    change (SetAIStatus Speaking :: ?l) with ([SetAIStatus Speaking] ++ l).
    rewrite !omap_app, status_of_clear. reflexivity.
  - unfold play, speak; fields. rewrite Hr, Htm, Hfr, Hs, Ho.
    rewrite (cleared_covered _ _ Ht). auto.
Qed.

Lemma audio_messages_status arrivals s :
  Forall audio_only arrivals ->
  is_Some (sessionPromiseRef s) ->
  is_Some (outputAudioContextRef s) ->
  timers s = [] \/ (exists id, timers s = [id] /\ aiSpeakingTimerRef s = Some id /\ id ≠ 0%Z) ->
  (1 <= fresh s)%Z ->
  let s' := run s (messages arrivals) in
  status_writes s' = status_writes s ++ replicate (length arrivals) Speaking /\
  sessionPromiseRef s' = sessionPromiseRef s /\
  (arrivals ≠ [] ->
   exists id, timers s' = [id] /\ aiSpeakingTimerRef s' = Some id).
Proof.
  intros Hall. revert s. induction Hall as [|[now message] arrivals Ha _ IH];
    intros s Hs Ho Ht Hf; cbv zeta.
  - cbn. rewrite app_nil_r. split; [reflexivity|]. split; [reflexivity | congruence].
  - cbn [messages map run fold_left fst snd].
    change (fold_left step (map _ arrivals) ?x) with (run x (messages arrivals)).
    assert (Hstep : step s (SessionMessage now message) = (onmessage now message s).2).
    { unfold step. cbn [enabled handler]. now rewrite bool_decide_eq_true_2 by exact Hs. }
    rewrite Hstep.
    destruct (audio_message_status now message s Ha Ho Ht Hf)
      as (Hw & Hs' & Ho' & Ht' & Hr' & Hf').
    set (s1 := (onmessage now message s).2) in *.
    destruct (IH s1) as (Hw2 & Hs2 & Hid).
    + now rewrite Hs'.
    + now rewrite Ho'.
    + right. exists (fresh s + 1)%Z. repeat split; auto. lia.
    + lia.
    + split; [|split].
      * rewrite Hw2, Hw, <- app_assoc. reflexivity.
      * now rewrite Hs2.
      * intros _. destruct arrivals as [|a arrivals'].
        -- exists (fresh s + 1)%Z. cbn. auto.
        -- apply Hid. discriminate.
Qed.

(** The state once the session is open. *)
Lemma opened_status store stream :
  let s := run (initial store) [Mount; Click (Ok stream); SessionOpen] in
  status_writes s = [Connecting; Listening] /\
  is_Some (sessionPromiseRef s) /\ is_Some (outputAudioContextRef s) /\
  timers s = [] /\ (1 <= fresh s)%Z.
Proof.
  cbv zeta. cbn [run fold_left].
  destruct (mount_status (initial store)) as (Hw0 & Ha0 & Hs0 & Ho0 & Ht0 & Hr0 & Hf0).
  assert (E0 : step (initial store) Mount = (mount (initial store)).2) by reflexivity.
  rewrite E0. set (s0 := (mount (initial store)).2) in *.
  destruct (startConversation_ok stream s0)
    as (s1 & Hrun1 & Ha1 & _ & _ & _ & Hc1 & Hs1 & Ho1 & _ & Ht1 & Hr1 & Hf1 & _).
  assert (E1 : step s0 (Click (Ok stream)) = s1).
  { unfold step. cbn [enabled handler]. rewrite Ha0. cbn [initial aiStatus].
    rewrite bool_decide_eq_false_2 by discriminate. cbn [negb].
    unfold handleControlButtonClick. rewrite bind_gets, Ha0.
    cbn [initial aiStatus isSessionActive]. now rewrite Hrun1. }
  rewrite E1.
  destruct (onopen_effect s1)
    as (s2 & Hrun2 & Ha2 & (wiring & Hc2 & Hquiet) & Hs2 & Ho2 & _ & Ht2 & Hr2 & Hf2 & _).
  assert (E2 : step s1 SessionOpen = s2).
  { unfold step. cbn [enabled handler].
    rewrite bool_decide_eq_true_2 by (rewrite Hs1; now eexists). now rewrite Hrun2. }
  rewrite E2.
  split; [|split; [|split; [|split]]].
  - rewrite (status_writes_app s1 s2 _ Hc2), (status_writes_app s0 s1 _ Hc1), Hw0.
    cbn. f_equal. f_equal.
    assert (Hw : forall l, (forall st, ~ In (SetAIStatus st) l) -> omap status_of l = []).
    { clear. induction l as [|c l IH]; intros H; [reflexivity|].
      cbn. destruct c; cbn; try (apply IH; intros st Hin; apply (H st); now right).
      exfalso. apply (H status). now left. }
    now apply Hw.
  - rewrite Hs2, Hs1. now eexists.
  - now rewrite Ho2.
  - now rewrite Ht2, Ht1, Ht0.
  - rewrite Hf2, Hf1, Hf0. cbn. lia.
Qed.

Lemma timer_fired_status s id :
  timers s = [id] ->
  status_writes (step s (TimerFired id)) = status_writes s ++ [Listening].
Proof.
  intros Ht. unfold step. cbn [enabled handler].
  rewrite bool_decide_eq_true_2 by (rewrite Ht; apply list_elem_of_singleton; reflexivity).
  unfold onSpeakingTimer, setAIStatus. mrun. cbn [snd].
  unfold status_writes; fields. now rewrite omap_app.
Qed.

Lemma turn_end_status now message s :
  turn_end message ->
  is_Some (sessionPromiseRef s) ->
  let s' := step s (SessionMessage now message) in
  status_writes s' = status_writes s ++ [Thinking] /\ timers s' = timers s.
Proof.
  intros (Htc & Hint & Hdec) Hs. cbv zeta. unfold step. cbn [enabled handler].
  rewrite bool_decide_eq_true_2 by exact Hs.
  rewrite (onmessage_no_audio _ _ _ Hdec). cbv zeta. rewrite Htc, Hint. cbn [snd].
  destruct (hear_playback message s) as (Hc & _).
  destruct (flush_playback (hear message s)) as ((stores & Hf & Hst) & _).
  destruct (flush_control (hear message s)) as (_ & _ & Htm & _).
  split.
  - rewrite (status_writes_app _ _ _ Hf). unfold status_writes at 1. rewrite Hc.
    f_equal. rewrite omap_app. destruct Hst as [-> | [history ->]]; reflexivity.
  - rewrite Htm. unfold hear.
    destruct (inputTranscription message), (outputTranscription message); reflexivity.
Qed.

Lemma spoken_trace n rest :
  Idle :: dedup_adjacent Idle (([Connecting; Listening] ++ replicate (S n) Speaking) ++ rest)
  = [Idle; Connecting; Listening; Speaking] ++ dedup_adjacent Speaking rest.
Proof.
  cbn [app replicate dedup_adjacent].
  rewrite !bool_decide_eq_false_2 by discriminate.
  now rewrite dedup_same.
Qed.

Lemma run_app s evs1 evs2 : run s (evs1 ++ evs2) = run (run s evs1) evs2.
Proof. apply fold_left_app. Qed.

(** C8, amended.  A session is started and opened, and one or more audio
    chunks of a reply arrive: the status has gone idle, connecting, listening,
    speaking.  If the playback timer then elapses, it goes back to listening.
    If the turn-complete signal arrives before the timer elapses, the status
    goes to thinking first, and to listening when the timer elapses. *)
Theorem audio_turn_statuses store stream arrivals :
  arrivals ≠ [] ->
  Forall audio_only arrivals ->
  let s := run (initial store) ([Mount; Click (Ok stream); SessionOpen] ++ messages arrivals) in
  exists id,
    aiSpeakingTimerRef s = Some id /\
    status_trace s = [Idle; Connecting; Listening; Speaking] /\
    status_trace (run s [TimerFired id]) =
      [Idle; Connecting; Listening; Speaking; Listening] /\
    (forall now message,
       turn_end message ->
       status_trace (run s [SessionMessage now message; TimerFired id]) =
         [Idle; Connecting; Listening; Speaking; Thinking; Listening]).
Proof.
  intros Hne Hall. cbv zeta. rewrite run_app.
  destruct (opened_status store stream) as (Hw & Hs & Ho & Ht & Hf).
  set (s0 := run (initial store) [Mount; Click (Ok stream); SessionOpen]) in *.
  destruct (audio_messages_status arrivals s0 Hall Hs Ho (or_introl Ht) Hf)
    as (Hw1 & Hsame & Hid).
  destruct (Hid Hne) as (id & Htm & Hr).
  assert (Hs1 : is_Some (sessionPromiseRef (run s0 (messages arrivals))))
    by now rewrite Hsame.
  set (s1 := run s0 (messages arrivals)) in *.
  assert (Hlen : exists n, length arrivals = S n).
  { destruct arrivals; [contradiction | now eexists]. }
  destruct Hlen as (n & Hlen). rewrite Hw, Hlen in Hw1.
  exists id. split; [exact Hr|]. split; [|split].
  - unfold status_trace. rewrite Hw1, <- (app_nil_r (_ ++ replicate _ _)).
    apply spoken_trace.
  - cbn [run fold_left]. unfold status_trace.
    rewrite (timer_fired_status _ _ Htm), Hw1. apply spoken_trace.
  - intros now message Hend. cbn [run fold_left].
    destruct (turn_end_status now message s1 Hend Hs1) as (Hw2 & Htm2).
    unfold status_trace.
    rewrite (timer_fired_status _ _ (eq_trans Htm2 Htm)), Hw2, Hw1, <- app_assoc.
    apply spoken_trace.
Qed.

Lemma audio_turn_statuses_witness :
  status_trace
    (run (run (initial ∅)
            ([Mount; Click (Ok [70%Z]); SessionOpen]
             ++ messages [(0%Q, with_audio two_samples no_content)]))
       [TimerFired 7])
  = [Idle; Connecting; Listening; Speaking; Listening].
Proof.
  assert (Hne : [(0%Q, with_audio two_samples no_content)] ≠ []) by discriminate.
  assert (Hall : Forall audio_only [(0%Q, with_audio two_samples no_content)]).
  { constructor; [|constructor].
    split; [reflexivity|]. split; [reflexivity|]. eexists. vm_compute. reflexivity. }
  destruct (audio_turn_statuses ∅ [70%Z] _ Hne Hall) as (id & Hid & _ & Htrace & _).
  assert (E : id = 7%Z) by (vm_compute in Hid; congruence).
  rewrite E in Htrace. exact Htrace.
Defined.

(** C8 as stated fails: in a full turn, closed by the turn-complete signal, the
    status also passes through [Thinking]. *)
Lemma full_turn_passes_thinking :
  status_trace (run (initial ∅) full_turn)
  <> [Idle; Connecting; Listening; Speaking; Listening].
Proof. vm_compute. discriminate. Qed.

(** ** The stored transcript *)

Lemma cleanup_calls_no_store s key value : ~ In (SetItem key value) (cleanup_calls s).
Proof.
  unfold cleanup_calls, clear_calls, close_calls. rewrite !in_app_iff, !in_map_iff.
  intros [H | [H | [H | [H | [H | [H | [H | H]]]]]]].
  - destruct (aiSpeakingTimerRef s) as [id|]; [destruct (truthy_number id)|];
      simpl in H; intuition discriminate.
  - destruct H as (? & ? & _). discriminate.
  - destruct (scriptProcessorRef s); simpl in H; intuition discriminate.
  - destruct (inputAudioContextRef s) as [[? ? []]|]; simpl in H; intuition discriminate.
  - destruct (outputAudioContextRef s) as [[? ? []]|]; simpl in H; intuition discriminate.
  - destruct (sessionPromiseRef s); simpl in H; intuition discriminate.
  - destruct H as (? & ? & _). discriminate.
  - simpl in H. intuition discriminate.
Qed.

Lemma startConversation_denied_store e s :
  transcription (startConversation (Throw e) s).2 = [] /\
  localStorage (startConversation (Throw e) s).2 = localStorage s /\
  since s (startConversation (Throw e) s).2 =
    [SetAIStatus Connecting; ConsoleError "Failed to start conversation:";
     SetAIStatus Error] ++ cleanup_calls s.
Proof.
  destruct s as [st er tr ic oc se ms sp so ci co ns ti tm fr ls cs].
  unfold startConversation, setAIStatus, setError, setTranscription, store_effect,
    try_catch, when.
  mrun. cbn [length Nat.ltb Nat.leb]. mrun. rewrite bind_lift. mrun.
  rewrite cleanup_eq. cbn [snd]. split; [reflexivity|]. split; [reflexivity|].
  apply since_app. unfold cleaned, cleanup_calls; norm_state.
  now rewrite <- !app_assoc.
Qed.

Lemma stored_with_lookup history s :
  history ≠ [] ->
  localStorage (stored_with history s) !! LIVE_CONVO_STORAGE_KEY = Some (Json history) /\
  calls (stored_with history s) =
    calls s ++ [SetItem LIVE_CONVO_STORAGE_KEY (Json history)].
Proof.
  intros H. unfold stored_with. destruct history as [|entry history]; [contradiction|].
  cbn [length Nat.ltb Nat.leb]. fields. split; [apply lookup_insert_eq | reflexivity].
Qed.

Lemma flush_store s :
  transcription (flush s) ≠ [] ->
  localStorage (flush s) !! LIVE_CONVO_STORAGE_KEY = Some (Json (transcription (flush s))) /\
  calls (flush s) =
    calls s ++ [SetItem LIVE_CONVO_STORAGE_KEY (Json (transcription (flush s)));
                SetAIStatus Thinking].
Proof.
  destruct (flush_text s) as (Ht & _). rewrite Ht. intros Hne.
  unfold flush. cbv zeta.
  set (history := transcription s ++ _) in *.
  destruct (stored_with_lookup history (set_transcription history s) Hne) as (Hl & Hc).
  fields. rewrite Hl, Hc. fields. rewrite <- app_assoc. auto.
Qed.

Lemma flush_keeps_store s :
  transcription (flush s) = [] -> localStorage (flush s) = localStorage s.
Proof.
  destruct (flush_text s) as (Ht & _). rewrite Ht. intros Hnil.
  unfold flush, stored_with. rewrite Hnil. reflexivity.
Qed.

(** The calls of the blocks after the flush come after it. *)
Lemma onmessage_calls now message s :
  exists later,
    calls (onmessage now message s).2 =
      calls (if turnComplete message then flush (hear message s) else hear message s)
      ++ later.
Proof.
  rewrite onmessage_eq. cbv zeta. rewrite onmessage_audio_eq.
  set (s2 := if turnComplete message then _ else _).
  destruct (outputAudioContextRef s2), (decoded message) as [[audioBuffer|e]|]; cbn [snd];
    destruct (interrupted message); unfold interrupt, play, speak; fields;
    rewrite <- ?app_assoc; try (now eexists); exists []; now rewrite app_nil_r.
Qed.

Lemma stored_inv_same s s' :
  transcription s' = transcription s -> localStorage s' = localStorage s ->
  stored_inv s -> stored_inv s'.
Proof. unfold stored_inv. now intros -> ->. Qed.

Lemma stored_inv_onmessage now message s :
  stored_inv s -> stored_inv (onmessage now message s).2.
Proof.
  intros Hinv. destruct (onmessage_text now message s) as (Ht & _ & _ & Hl).
  cbv zeta in Ht, Hl. unfold stored_inv. rewrite Ht, Hl.
  destruct (hear_text message s) as (Hht & Hhl & _).
  destruct (turnComplete message).
  - intros Hne. now apply flush_store.
  - rewrite Hht, Hhl. exact Hinv.
Qed.

Lemma stored_inv_step s ev : stored_inv s -> stored_inv (step s ev).
Proof.
  intros Hinv. unfold step. destruct (enabled s ev); [|exact Hinv].
  destruct ev as [| |microphone| |now message| | |inputData|id|source]; cbn [handler].
  - destruct (mount_effect s) as (s' & -> & _ & _ & _ & _ & _ & _ & Hm). cbn [snd].
    destruct (localStorage s !! LIVE_CONVO_STORAGE_KEY) as [[l|t]|].
    + destruct Hm as (Ht & Hl). unfold stored_inv. now rewrite Ht.
    + destruct Hm as (Ht & Hl). now apply (stored_inv_same s).
    + destruct Hm as (Ht & Hl). now apply (stored_inv_same s).
  - unfold unmount. rewrite cleanup_eq. revert Hinv. now apply stored_inv_same.
  - unfold handleControlButtonClick. rewrite bind_gets.
    assert (Hstart : stored_inv (startConversation microphone s).2).
    { destruct microphone as [stream|e].
      - destruct (startConversation_ok stream s) as (s' & -> & _ & _ & Ht & _). cbn [snd].
        unfold stored_inv. now rewrite Ht.
      - destruct (startConversation_denied_store e s) as (Ht & _).
        unfold stored_inv. now rewrite Ht. }
    destruct (aiStatus s); cbn [isSessionActive];
      rewrite ?cleanup_eq, ?handleInterruptSpeech_eq; cbn [snd];
      try exact Hstart; revert Hinv; now apply stored_inv_same.
  - destruct (onopen_effect s) as (s' & -> & _ & _ & _ & _ & _ & _ & _ & _ & Ht & Hl).
    cbn [snd]. now apply (stored_inv_same s).
  - now apply stored_inv_onmessage.
  - destruct (onerror_eq s) as (s1 & -> & _ & _ & _ & Ht & Hl). cbn [snd].
    revert Hinv. apply stored_inv_same; cbn [cleaned transcription localStorage]; auto.
  - unfold onclose. rewrite cleanup_eq. revert Hinv. now apply stored_inv_same.
  - destruct (onaudioprocess_eq inputData s) as (payload & _ & _ & ->). cbn [snd].
    destruct (sessionPromiseRef s); [|exact Hinv].
    revert Hinv. now apply stored_inv_same.
  - unfold onSpeakingTimer, setAIStatus. mrun. cbn [snd].
    revert Hinv. now apply stored_inv_same.
  - unfold onended. rewrite run_modify. cbn [snd].
    revert Hinv. now apply stored_inv_same.
Qed.

Lemma stored_inv_run s evs : stored_inv s -> stored_inv (run s evs).
Proof.
  revert s. induction evs as [|ev evs IH]; intros s H; [exact H|].
  apply IH. now apply stored_inv_step.
Qed.

(** C9.  The transcript is stored under the one key
    [careerCompassLiveConvoHistory], as the list itself.  On mount a stored
    list is loaded.  In every state the event loop reaches, a transcript that
    is not empty is the stored one, and a message that makes the list grow
    writes the new list.  [startConversation] empties the transcript in memory
    without writing to the store. *)
Theorem transcript_persisted :
  (forall s l,
     localStorage s !! LIVE_CONVO_STORAGE_KEY = Some (Json l) ->
     transcription (mount s).2 = l) /\
  (forall store evs, stored_inv (run (initial store) evs)) /\
  (forall now message s,
     (length (transcription s) < length (transcription (onmessage now message s).2))%nat ->
     localStorage (onmessage now message s).2 !! LIVE_CONVO_STORAGE_KEY
       = Some (Json (transcription (onmessage now message s).2)) /\
     In (SetItem LIVE_CONVO_STORAGE_KEY (Json (transcription (onmessage now message s).2)))
        (since s (onmessage now message s).2)) /\
  (forall microphone s,
     transcription (startConversation microphone s).2 = [] /\
     localStorage (startConversation microphone s).2 = localStorage s /\
     forall key value,
       ~ In (SetItem key value) (since s (startConversation microphone s).2)).
Proof.
  split; [|split; [|split]].
  - intros s l H. destruct (mount_effect s) as (s' & -> & _ & _ & _ & _ & _ & _ & Hm).
    rewrite H in Hm. cbn [snd]. apply Hm.
  - intros store evs. apply stored_inv_run. unfold stored_inv. now cbn.
  - intros now message s Hgrow.
    destruct (onmessage_text now message s) as (Ht & _ & _ & Hl).
    destruct (onmessage_calls now message s) as (later & Hc).
    cbv zeta in Ht, Hl. rewrite Ht, Hl in *.
    destruct (hear_text message s) as (Hht & _).
    destruct (hear_playback message s) as (Hhc & _).
    destruct (turnComplete message); [|rewrite Hht in Hgrow; lia].
    assert (Hne : transcription (flush (hear message s)) ≠ []).
    { intros E. rewrite E in Hgrow. cbn in Hgrow. lia. }
    destruct (flush_store _ Hne) as (Hstore & Hcalls).
    split; [exact Hstore|].
    rewrite (since_app s _ ([SetItem LIVE_CONVO_STORAGE_KEY
                               (Json (transcription (flush (hear message s))));
                             SetAIStatus Thinking] ++ later)).
    + now left.
    + now rewrite Hc, Hcalls, Hhc, <- app_assoc.
  - intros [stream|e] s.
    + destruct (startConversation_ok stream s)
        as (s' & -> & _ & _ & Ht & Hl & Hc & _). cbn [snd].
      split; [exact Ht|]. split; [exact Hl|].
      intros key value. rewrite (since_app s s' _ Hc). cbn. intuition discriminate.
    + destruct (startConversation_denied_store e s) as (Ht & Hl & Hc).
      split; [exact Ht|]. split; [exact Hl|].
      intros key value. rewrite Hc, in_app_iff. intros [H | H].
      * cbn in H. intuition discriminate.
      * now apply cleanup_calls_no_store in H.
Qed.

Lemma transcript_persisted_witness :
  transcription
    (mount (initial {[ LIVE_CONVO_STORAGE_KEY :=
                         Json [{| author := You; text := str "hello" |}] ]})).2
  = [{| author := You; text := str "hello" |}].
Proof.
  destruct transcript_persisted as (Hload & _).
  apply Hload. vm_compute. reflexivity.
Defined.

(** ** More on the event loop *)

Lemma onmessage_status (P : AIStatus -> Prop) now message s :
  P (aiStatus s) -> P Thinking -> P Speaking -> P Listening ->
  P (aiStatus (onmessage now message s).2).
Proof.
  intros H0 Ht Hs Hl. rewrite onmessage_eq. cbv zeta. rewrite onmessage_audio_eq.
  set (s2 := if turnComplete message then _ else _).
  assert (H2 : P (aiStatus s2)).
  { subst s2. destruct (turnComplete message).
    - now destruct (flush_control (hear message s)) as (-> & _).
    - unfold hear. now destruct (inputTranscription message), (outputTranscription message). }
  destruct (outputAudioContextRef s2), (decoded message) as [[audioBuffer|e]|]; cbn [snd];
    destruct (interrupted message); unfold interrupt, play, speak; fields; assumption.
Qed.

(** The status a callback of the event loop leaves is one of those it may
    write last. *)
Lemma step_status (P : AIStatus -> Prop) s ev :
  P (aiStatus s) -> P Idle -> P Connecting -> P Thinking -> P Speaking -> P Listening ->
  P (aiStatus (step s ev)).
Proof.
  intros H0 Hi Hc Ht Hs Hl. unfold step. destruct (enabled s ev); [|exact H0].
  destruct ev as [| |microphone| |now message| | |inputData|id|source]; cbn [handler].
  - now destruct (mount_status s) as (_ & -> & _).
  - unfold unmount. now rewrite cleanup_eq.
  - unfold handleControlButtonClick. rewrite bind_gets.
    assert (Hstart : P (aiStatus (startConversation microphone s).2)).
    { destruct microphone as [stream|e].
      - destruct (startConversation_ok stream s) as (s' & -> & Ha & _). cbn [snd].
        now rewrite Ha.
      - now destruct (start_denied_eq e s) as (s1 & -> & _). }
    destruct (aiStatus s); cbn [isSessionActive];
      rewrite ?cleanup_eq, ?handleInterruptSpeech_eq; cbn [snd]; assumption.
  - destruct (onopen_effect s) as (s' & -> & Ha & _). cbn [snd]. now rewrite Ha.
  - now apply onmessage_status.
  - now destruct (onerror_eq s) as (s1 & -> & _).
  - unfold onclose. now rewrite cleanup_eq.
  - destruct (onaudioprocess_eq inputData s) as (payload & _ & _ & ->). cbn [snd].
    now destruct (sessionPromiseRef s).
  - unfold onSpeakingTimer, setAIStatus. mrun. exact Hl.
  - unfold onended. now rewrite run_modify.
Qed.

(** Between two callbacks the status is never [Error]: both places that write
    it go on to [cleanup], which writes [Idle].  So the indicator never shows
    the error box, whatever message is stored. *)
Theorem error_never_shown store evs :
  aiStatus (run (initial store) evs) ≠ Error /\
  forall message,
    StatusIndicator (aiStatus (run (initial store) evs)) (error (run (initial store) evs))
    ≠ ErrorBox message.
Proof.
  assert (H : aiStatus (run (initial store) evs) ≠ Error).
  { assert (Hgen : forall s, aiStatus s ≠ Error -> aiStatus (run s evs) ≠ Error).
    { induction evs as [|ev evs IH]; intros s Hs; [exact Hs|].
      apply IH. now apply (step_status (fun st => st ≠ Error)). }
    now apply Hgen. }
  split; [exact H|]. intros message.
  destruct (aiStatus (run (initial store) evs)); cbn; congruence.
Qed.

(** A transport error: the generic message is stored, the status is written
    [Error] and then, by [cleanup], [Idle]; everything [cleanup] releases is
    released. *)
Theorem transport_error_ends_idle s :
  (onerror s).1 = Ok tt /\
  error (onerror s).2 = Some "A connection error occurred. Please try again."%string /\
  aiStatus (onerror s).2 = Idle /\
  since s (onerror s).2 =
    [ConsoleError "Live session error:"; SetAIStatus Error] ++ cleanup_calls s /\
  StatusIndicator (aiStatus (onerror s).2) (error (onerror s).2)
    = Line "Press the microphone to start." /\
  sessionPromiseRef (onerror s).2 = None /\ mediaStreamRef (onerror s).2 = None /\
  scriptProcessorRef (onerror s).2 = None /\ sourcesRef (onerror s).2 = [].
Proof.
  destruct s as [st er tr ic oc se ms sp so ci co ns ti tm fr ls cs].
  unfold onerror, setAIStatus, setError. mrun. rewrite cleanup_eq. cbn [fst snd].
  repeat split.
  apply since_app. unfold cleaned, cleanup_calls; norm_state. now rewrite <- !app_assoc.
Qed.

(** ** What [mount] and [cleanup] leave *)

(** [mount] only touches the transcript, the store and the log. *)
Lemma mount_frame s :
  exists history store log,
    (mount s).2 = set_calls log (set_localStorage store (set_transcription history s)) /\
    (store = localStorage s \/
     exists l, store = <[LIVE_CONVO_STORAGE_KEY := Json l]> (localStorage s)).
Proof.
  destruct s as [st er tr ic oc se ms sp so ci co ns ti tm fr ls cs].
  unfold mount, setTranscription, store_effect, when. mrun.
  destruct (ls !! LIVE_CONVO_STORAGE_KEY) as [[[|entry l]|t]|];
    mrun; cbn [length Nat.ltb Nat.leb]; mrun;
    try (destruct (truthy_string t); mrun); cbn [snd];
    do 3 eexists; (split; [norm_state; reflexivity|]);
    (now left) || (right; now eexists).
Qed.


(** ** The callbacks in any order *)

Lemma startConversation_begin_effect s :
  exists s',
    startConversation_begin s = (Ok tt, s') /\
    aiStatus s' = Connecting /\
    timers s' = timers s /\ aiSpeakingTimerRef s' = aiSpeakingTimerRef s /\
    fresh s' = fresh s /\
    sessionPromiseRef s' = sessionPromiseRef s /\ mediaStreamRef s' = mediaStreamRef s.
Proof.
  destruct s as [st er tr ic oc se ms sp so ci co ns ti tm fr ls cs].
  unfold startConversation_begin, setAIStatus, setError, setTranscription, store_effect, when.
  mrun. cbn [length Nat.ltb Nat.leb]. mrun.
  eexists. split; [reflexivity|]. norm_state. now repeat split.
Qed.

Lemma startConversation_resume_ok stream s :
  exists s',
    startConversation_resume (Ok stream) s = (Ok tt, s') /\
    aiStatus s' = aiStatus s /\
    timers s' = timers s /\ aiSpeakingTimerRef s' = aiSpeakingTimerRef s /\
    fresh s' = (fresh s + 3)%Z /\
    sessionPromiseRef s' = Some (fresh s + 2)%Z /\ mediaStreamRef s' = Some stream.
Proof.
  destruct s as [st er tr ic oc se ms sp so ci co ns ti tm fr ls cs].
  unfold startConversation_resume, newAudioContext, startLiveSession, try_catch.
  rewrite bind_lift. mrun.
  eexists. split; [reflexivity|]. norm_state.
  rewrite <- !Z.add_assoc. now repeat split.
Qed.

Lemma startConversation_resume_denied e s :
  exists s1,
    startConversation_resume (Throw e) s = (Ok tt, cleaned s1) /\
    aiSpeakingTimerRef s1 = aiSpeakingTimerRef s /\ timers s1 = timers s /\
    fresh s1 = fresh s.
Proof.
  destruct s as [st er tr ic oc se ms sp so ci co ns ti tm fr ls cs].
  unfold startConversation_resume, setAIStatus, setError, try_catch.
  rewrite bind_lift. mrun. rewrite cleanup_eq.
  eexists. split; [reflexivity|]. now norm_state.
Qed.

(** [startConversation] is its two parts, one after the other. *)
Lemma startConversation_parts microphone s :
  startConversation microphone s
  = (startConversation_begin;; startConversation_resume microphone) s.
Proof.
  unfold startConversation, startConversation_begin, startConversation_resume.
  now rewrite !bind_assoc.
Qed.

Lemma timer_inv_initial store : timer_inv (initial store).
Proof. unfold timer_inv; cbn. split; [now left | lia]. Qed.

Lemma timer_inv_same s s' :
  timers s' = timers s -> aiSpeakingTimerRef s' = aiSpeakingTimerRef s ->
  (fresh s <= fresh s')%Z ->
  timer_inv s -> timer_inv s'.
Proof. unfold timer_inv. intros -> -> Hf (Ht & H1). split; [exact Ht | lia]. Qed.

Lemma timer_inv_cleaned s : timer_inv s -> timer_inv (cleaned s).
Proof.
  intros (Ht & Hf). unfold timer_inv, cleaned; fields.
  rewrite (cleared_covered _ _ Ht). split; [now left | exact Hf].
Qed.

Lemma timer_inv_hear message s : timer_inv s -> timer_inv (hear message s).
Proof.
  apply timer_inv_same; unfold hear;
    destruct (inputTranscription message), (outputTranscription message);
    fields; reflexivity || lia.
Qed.

Lemma timer_inv_flush s : timer_inv s -> timer_inv (flush s).
Proof.
  destruct (flush_control s) as (_ & _ & Htm & Hr & Hf).
  apply timer_inv_same; [exact Htm | exact Hr | lia].
Qed.

Lemma timer_inv_speak now s :
  timer_inv s -> timer_inv (speak now s) /\ timers (speak now s) = [].
Proof.
  intros (Ht & Hf). unfold timer_inv, speak; fields.
  rewrite (cleared_covered _ _ Ht). auto.
Qed.

Lemma timer_inv_play audioBuffer s :
  timers s = [] -> timer_inv s -> timer_inv (play audioBuffer s).
Proof.
  intros Ht (_ & Hf). unfold timer_inv, play; fields. rewrite Ht.
  split; [|lia]. right. exists (fresh s + 1)%Z. repeat split. lia.
Qed.

Lemma timer_inv_interrupt s : timer_inv s -> timer_inv (interrupt s).
Proof.
  intros (Ht & Hf). unfold timer_inv, interrupt; fields.
  rewrite (cleared_covered _ _ Ht). auto.
Qed.

(** [onmessage] keeps the invariant, however it ends. *)
Lemma timer_inv_onmessage now message s :
  timer_inv s -> timer_inv (onmessage now message s).2.
Proof.
  intros Hinv. rewrite onmessage_eq. cbv zeta. rewrite onmessage_audio_eq.
  set (s2 := if turnComplete message then _ else _).
  assert (H2 : timer_inv s2).
  { subst s2. pose proof (timer_inv_hear message s Hinv) as Hh.
    destruct (turnComplete message); [now apply timer_inv_flush | exact Hh]. }
  assert (Hint : forall s3, timer_inv s3 ->
                   timer_inv (if interrupted message then interrupt s3 else s3)).
  { intros s3 H3. destruct (interrupted message); [now apply timer_inv_interrupt | exact H3]. }
  destruct (outputAudioContextRef s2), (decoded message) as [[audioBuffer|e]|]; cbn [snd];
    try (now apply Hint).
  - destruct (timer_inv_speak now s2 H2) as (Hsp & Htm).
    apply Hint. now apply timer_inv_play.
  - now apply timer_inv_speak.
Qed.

(** Every callback keeps the invariant, in whatever state it is called. *)
Lemma timer_inv_react s cb : timer_inv s -> timer_inv (react s cb).
Proof.
  intros Hinv. pose proof Hinv as (Ht & Hfresh).
  destruct cb as [| | |microphone| |now message| | |inputData|id|source]; cbn [react].
  - destruct (mount_effect s) as (s' & -> & _ & _ & Htm & Hr & Hf & _). cbn [snd].
    revert Hinv. apply timer_inv_same; [exact Htm | exact Hr | lia].
  - unfold unmount. rewrite cleanup_eq. now apply timer_inv_cleaned.
  - destruct (bool_decide (aiStatus s = Connecting)); [exact Hinv|].
    unfold handleControlButtonClick_begin. rewrite bind_gets.
    assert (Hstart : timer_inv (startConversation_begin s).2).
    { destruct (startConversation_begin_effect s) as (s' & -> & _ & Htm & Hr & Hf & _).
      cbn [snd]. revert Hinv. apply timer_inv_same; [exact Htm | exact Hr | lia]. }
    destruct (aiStatus s); cbn [isSessionActive];
      rewrite ?cleanup_eq, ?handleInterruptSpeech_eq; cbn [snd];
      try exact Hstart; try (now apply timer_inv_cleaned).
    unfold timer_inv, interrupt; fields. rewrite (cleared_covered _ _ Ht). auto.
  - destruct microphone as [stream|e].
    + destruct (startConversation_resume_ok stream s) as (s' & -> & _ & Htm & Hr & Hf & _).
      cbn [snd]. revert Hinv. apply timer_inv_same; [exact Htm | exact Hr | lia].
    + destruct (startConversation_resume_denied e s) as (s1 & -> & Hr & Htm & Hf).
      cbn [snd]. apply timer_inv_cleaned. unfold timer_inv. now rewrite Hr, Htm, Hf.
  - destruct (onopen_effect s) as (s' & -> & _ & _ & _ & _ & _ & Htm & Hr & Hf & _).
    cbn [snd]. revert Hinv. apply timer_inv_same; [exact Htm | exact Hr | lia].
  - now apply timer_inv_onmessage.
  - destruct (onerror_eq s) as (s1 & -> & Hr & Htm & Hf & _). cbn [snd].
    apply timer_inv_cleaned. unfold timer_inv. now rewrite Hr, Htm, Hf.
  - unfold onclose. rewrite cleanup_eq. now apply timer_inv_cleaned.
  - destruct (onaudioprocess_eq inputData s) as (payload & _ & _ & ->). cbn [snd].
    destruct (sessionPromiseRef s); [|exact Hinv].
    revert Hinv. apply timer_inv_same; fields; reflexivity || lia.
  - destruct (bool_decide (id ∈ timers s)) eqn:Hin; [|exact Hinv].
    apply bool_decide_eq_true in Hin. cbn [handler].
    unfold onSpeakingTimer, setAIStatus. mrun. cbn [snd].
    unfold timer_inv; fields.
    destruct Ht as [Ht | (id' & H1 & _)].
    + rewrite Ht in Hin. now apply not_elem_of_nil in Hin.
    + rewrite H1 in Hin |- *. rewrite (in_singleton_timer _ _ Hin). auto.
  - unfold onended. rewrite run_modify. cbn [snd].
    revert Hinv. apply timer_inv_same; fields; reflexivity || lia.
Qed.

Lemma timer_inv_reach store cbs : timer_inv (reach store cbs).
Proof.
  unfold reach. generalize (timer_inv_initial store). generalize (initial store).
  induction cbs as [|cb cbs IH]; intros s H; [exact H|].
  cbn [fold_left]. apply IH. now apply timer_inv_react.
Qed.

(** Whatever callbacks ran, and in whatever order, at most one playback timer
    is pending, and it is the one [aiSpeakingTimerRef] names: every place that
    sets a timer cancels the one before. *)
Theorem one_pending_timer store cbs :
  (length (timers (reach store cbs)) <= 1)%nat /\
  forall id,
    In id (timers (reach store cbs)) ->
    aiSpeakingTimerRef (reach store cbs) = Some id /\ id ≠ 0%Z.
Proof.
  destruct (timer_inv_reach store cbs) as ([-> | (id & -> & Hr & Hid)] & _).
  - split; [cbn; lia | intros id []].
  - split; [cbn; lia|]. intros id' [<- | []]. auto.
Qed.


(** The status can be [Idle] while a session and the microphone are held.
    The user stops a conversation and starts the next; the [onclose] of the
    stopped session is called while the new [startConversation] waits for the
    microphone, and its [cleanup] writes [Idle]; [startConversation] then goes
    on, takes the stream and opens a session, and writes no status. *)
Theorem stale_close_leaves_idle_session :
  aiStatus (reach ∅ stale_close) = Idle /\
  is_Some (sessionPromiseRef (reach ∅ stale_close)) /\
  mediaStreamRef (reach ∅ stale_close) = Some [71%Z] /\
  status_trace (reach ∅ stale_close) = [Idle; Connecting; Listening; Idle; Connecting; Idle].
Proof.
  split; [vm_compute; reflexivity|].
  split; [eexists; vm_compute; reflexivity|].
  split; vm_compute; reflexivity.
Qed.

(** ** Chunks that do not decode *)

Lemma int16_view_odd data :
  Nat.odd (length data) = true -> int16_view data = Throw RangeError.
Proof.
  induction data as [|a|a b r IH] using list_ind2; intros H.
  - discriminate.
  - reflexivity.
  - cbn [int16_view]. rewrite IH; [reflexivity|].
    cbn [length] in H. now rewrite Nat.odd_succ_succ in H.
Qed.

Lemma int16_view_even data :
  Nat.even (length data) = true ->
  exists samples, int16_view data = Ok samples /\ (2 * length samples = length data)%nat.
Proof.
  induction data as [|a|a b r IH] using list_ind2; intros H.
  - now exists [].
  - discriminate.
  - cbn [length] in H. rewrite Nat.even_succ_succ in H.
    destruct (IH H) as (samples & Hv & Hlen).
    cbn [int16_view]. rewrite Hv. cbn [rbind].
    eexists. split; [reflexivity|]. cbn [length]. lia.
Qed.

(** [decodeAudioData] on one channel.  An odd number of bytes is a
    RangeError, at the 16-bit view and so whatever the rate; no byte at all is
    a NotSupportedError, and so is a rate that is not positive.  An even,
    positive number of bytes at a rate every implementation supports (8000 to
    96000) gives one channel of half as many frames, whose duration is the
    frame count over the rate. *)
Theorem decodeAudioData_edges (data : list byte) (rate : Z) :
  (Nat.odd (length data) = true -> decodeAudioData data rate 1 = Throw RangeError) /\
  (data = [] -> decodeAudioData data rate 1 = Throw NotSupportedError) /\
  (Nat.even (length data) = true -> (rate <= 0)%Z ->
   decodeAudioData data rate 1 = Throw NotSupportedError) /\
  (Nat.even (length data) = true -> data ≠ [] -> (8000 <= rate <= 96000)%Z ->
   exists audioBuffer channel,
     decodeAudioData data rate 1 = Ok audioBuffer /\
     channelData audioBuffer = [channel] /\
     (2 * frames audioBuffer = length data)%nat /\
     length channel = frames audioBuffer /\
     duration audioBuffer = (inject_Z (Z.of_nat (frames audioBuffer)) / inject_Z rate)%Q).
Proof.
  split; [|split; [|split]].
  - intros H. unfold decodeAudioData. now rewrite int16_view_odd.
  - intros ->. reflexivity.
  - intros Heven Hrate. destruct (int16_view_even data Heven) as (samples & Hv & _).
    unfold decodeAudioData. rewrite Hv. cbn [rbind].
    rewrite (proj2 (Z.leb_le rate 0) Hrate), !orb_true_r. reflexivity.
  - intros Heven Hne Hrate. destruct (int16_view_even data Heven) as (samples & Hv & Hlen).
    unfold decodeAudioData. rewrite Hv. cbn [rbind]. rewrite Nat.div_1_r.
    destruct samples as [|v samples].
    + destruct data; [contradiction | discriminate].
    + cbn [length Nat.eqb orb].
      rewrite (proj2 (Z.leb_gt rate 0)) by lia.
      eexists _, _. split; [reflexivity|]. cbn [channelData frames seq map].
      split; [reflexivity|]. split; [exact Hlen|]. split; [|reflexivity].
      cbn [length]. now rewrite length_map, length_seq.
Qed.

Lemma decodeAudioData_edges_witness :
  decodeAudioData [x01] 24000 1 = Throw RangeError /\
  decodeAudioData [x00; x80] 0 1 = Throw NotSupportedError /\
  exists audioBuffer channel,
    decodeAudioData [x00; x80; xff; x7f] 24000 1 = Ok audioBuffer /\
    channelData audioBuffer = [channel] /\
    (2 * frames audioBuffer = 4)%nat.
Proof.
  split; [|split].
  - exact (proj1 (decodeAudioData_edges [x01] 24000) eq_refl).
  - apply (proj1 (proj2 (proj2 (decodeAudioData_edges [x00; x80] 0)))); [reflexivity | lia].
  - destruct (proj2 (proj2 (proj2 (decodeAudioData_edges [x00; x80; xff; x7f] 24000)))
                eq_refl)
      as (audioBuffer & channel & H1 & H2 & H3 & _); [discriminate | lia |].
    now exists audioBuffer, channel.
Defined.

Lemma timeouts_clear timer : timeouts (clear_calls timer) = [].
Proof. destruct timer as [id|]; [|reflexivity]. cbn. now destruct (truthy_number id). Qed.

Lemma scheduled_since s s' l :
  calls s' = calls s ++ l -> scheduled s' = scheduled s ++ starts l.
Proof. apply scheduled_app. Qed.

Lemma starts_app l1 l2 : starts (l1 ++ l2) = starts l1 ++ starts l2.
Proof. apply omap_app. Qed.

Lemma timeouts_app l1 l2 : timeouts (l1 ++ l2) = timeouts l1 ++ timeouts l2.
Proof. apply omap_app. Qed.

(** The first two blocks of [onmessage] start, stop and time nothing. *)
Lemma text_blocks_quiet message s :
  let s2 := if turnComplete message then flush (hear message s) else hear message s in
  exists earlier,
    calls s2 = calls s ++ earlier /\
    starts earlier = [] /\ timeouts earlier = [] /\ stopped earlier = [] /\
    sourcesRef s2 = sourcesRef s /\
    outputAudioContextRef s2 = outputAudioContextRef s /\
    nextStartTimeRef s2 = nextStartTimeRef s /\
    timers s2 = timers s /\ aiSpeakingTimerRef s2 = aiSpeakingTimerRef s.
Proof.
  cbv zeta. destruct (hear_playback message s) as (Hc & Hs & Hn & Ho).
  assert (Hh : aiSpeakingTimerRef (hear message s) = aiSpeakingTimerRef s /\
               timers (hear message s) = timers s).
  { unfold hear. destruct (inputTranscription message), (outputTranscription message);
      fields; auto. }
  destruct Hh as (Hr & Htm).
  destruct (turnComplete message).
  - destruct (flush_playback (hear message s)) as ((stores & Hf & Hst) & Hfs & Hfn & Hfo).
    destruct (flush_control (hear message s)) as (_ & _ & Hft & Hfr & _).
    exists (stores ++ [SetAIStatus Thinking]).
    rewrite Hf, Hc, Hfs, Hs, Hfo, Ho, Hfn, Hn, Hft, Hfr, Hr, Htm.
    split; [reflexivity|].
    destruct Hst as [-> | [history ->]]; repeat split.
  - exists []. rewrite app_nil_r. repeat split; assumption.
Qed.

(** When the audio of a message does not decode, [onmessage] throws after it
    wrote the status [Speaking] and cancelled the timer: nothing is scheduled,
    no timer is set, the active set is as it was, and the interrupted flag of
    the message is not looked at.  With no timer pending, only a later message
    or a click changes the status again. *)
Theorem undecodable_chunk now message s e :
  is_Some (outputAudioContextRef s) ->
  decoded message = Some (Throw e) ->
  (onmessage now message s).1 = Throw e /\
  aiStatus (onmessage now message s).2 = Speaking /\
  scheduled (onmessage now message s).2 = scheduled s /\
  sourcesRef (onmessage now message s).2 = sourcesRef s /\
  timeouts (since s (onmessage now message s).2) = [] /\
  timers (onmessage now message s).2 = cleared (aiSpeakingTimerRef s) (timers s) /\
  stopped (since s (onmessage now message s).2) = [].
Proof.
  intros [ctx Hctx] Hdec. rewrite onmessage_eq. cbv zeta. rewrite onmessage_audio_eq, Hdec.
  destruct (text_blocks_quiet message s)
    as (earlier & Hc & Hst & Hto & Hsp & Hsrc & Ho & _ & Htm & Hr).
  cbv zeta in Hc, Hsrc, Ho, Htm, Hr.
  set (s2 := if turnComplete message then _ else _) in *.
  rewrite Ho, Hctx. cbn [fst snd]. split; [reflexivity|].
  assert (Hcalls : calls (speak now s2) =
                   calls s ++ earlier ++ [SetAIStatus Speaking]
                           ++ clear_calls (aiSpeakingTimerRef s)).
  { unfold speak; fields. rewrite Hc, Hr, <- app_assoc. reflexivity. }
  rewrite (since_app s _ _ Hcalls), (scheduled_since s _ _ Hcalls).
  rewrite !starts_app, !timeouts_app, !stopped_app.
  rewrite Hst, Hto, Hsp, timeouts_clear, stopped_clear.
  fold (starts (clear_calls (aiSpeakingTimerRef s))).
  assert (Hsc : starts (clear_calls (aiSpeakingTimerRef s)) = []) by apply starts_clear.
  rewrite Hsc. cbn [app]. rewrite app_nil_r.
  split; [reflexivity|]. split; [reflexivity|]. split; [exact Hsrc|].
  split; [reflexivity|]. split; [|reflexivity].
  unfold speak; fields. now rewrite Htm, Hr.
Qed.

Lemma undecodable_chunk_witness :
  (onmessage 0%Q (with_interrupted (with_audio (str "AA==") no_content)) speaking_session).1
  = Throw RangeError /\
  sourcesRef (onmessage 0%Q (with_interrupted (with_audio (str "AA==") no_content))
                speaking_session).2
  = sourcesRef speaking_session.
Proof.
  assert (Hctx : is_Some (outputAudioContextRef speaking_session))
    by (exists {| ctxId := 2; sampleRate := 24000; ctxState := running |};
        vm_compute; reflexivity).
  assert (Hdec : decoded (with_interrupted (with_audio (str "AA==") no_content))
                 = Some (Throw RangeError)) by (vm_compute; reflexivity).
  destruct (undecodable_chunk 0%Q _ speaking_session RangeError Hctx Hdec)
    as (H1 & _ & _ & H4 & _).
  split; [exact H1 | exact H4].
Defined.

(** ** An interruption that is lost *)

(** C4, on the code.  The interrupted block (lines 200-206) comes after the
    audio block, whose [await decodeAudioData(decode(audioData), ...)]
    (line 184) nothing guards.  A message with the interrupted flag whose
    chunk does not decode throws there, before the flag is looked at: no
    source of the active set is stopped, the set is as it was, the cursor is
    not reset to zero but left at the later of its value and the clock, and
    the status stays [Speaking]. *)
Theorem interruption_lost now message s e :
  is_Some (outputAudioContextRef s) ->
  interrupted message = true ->
  decoded message = Some (Throw e) ->
  (onmessage now message s).1 = Throw e /\
  stopped (since s (onmessage now message s).2) = [] /\
  sourcesRef (onmessage now message s).2 = sourcesRef s /\
  nextStartTimeRef (onmessage now message s).2 = Qmax (nextStartTimeRef s) now /\
  aiStatus (onmessage now message s).2 = Speaking.
Proof.
  intros [ctx Hctx] _ Hdec. rewrite onmessage_eq. cbv zeta. rewrite onmessage_audio_eq, Hdec.
  destruct (text_blocks_quiet message s)
    as (earlier & Hc & _ & _ & Hsp & Hsrc & Ho & Hn & _ & Hr).
  cbv zeta in Hc, Hsrc, Ho, Hn, Hr.
  set (s2 := if turnComplete message then _ else _) in *.
  rewrite Ho, Hctx. cbn [fst snd]. split; [reflexivity|].
  assert (Hcalls : calls (speak now s2) =
                   calls s ++ earlier ++ [SetAIStatus Speaking]
                           ++ clear_calls (aiSpeakingTimerRef s)).
  { unfold speak; fields. rewrite Hc, Hr, <- app_assoc. reflexivity. }
  rewrite (since_app s _ _ Hcalls), !stopped_app, Hsp, stopped_clear.
  split; [reflexivity|]. unfold speak; fields. rewrite Hn. auto.
Qed.

Lemma interruption_lost_witness :
  (onmessage 0%Q (with_interrupted (with_audio (str "AA==") no_content)) speaking_session).1
  = Throw RangeError /\
  stopped (since speaking_session
             (onmessage 0%Q (with_interrupted (with_audio (str "AA==") no_content))
                speaking_session).2) = [] /\
  length (sourcesRef (onmessage 0%Q (with_interrupted (with_audio (str "AA==") no_content))
                        speaking_session).2) = 1%nat /\
  nextStartTimeRef (onmessage 0%Q (with_interrupted (with_audio (str "AA==") no_content))
                      speaking_session).2 = (2 # 24000)%Q.
Proof.
  assert (Hctx : is_Some (outputAudioContextRef speaking_session))
    by (exists {| ctxId := 2; sampleRate := 24000; ctxState := running |};
        vm_compute; reflexivity).
  assert (Hdec : decoded (with_interrupted (with_audio (str "AA==") no_content))
                 = Some (Throw RangeError)) by (vm_compute; reflexivity).
  destruct (interruption_lost 0%Q (with_interrupted (with_audio (str "AA==") no_content))
              speaking_session RangeError Hctx eq_refl Hdec)
    as (H1 & H2 & H3 & H4 & _).
  split; [exact H1|]. split; [exact H2|]. split.
  - rewrite H3. vm_compute. reflexivity.
  - rewrite H4. vm_compute. reflexivity.
Defined.

(** ** From capture to playback *)

Lemma map_nth_seq {A} (l : list A) d :
  map (fun i => nth i l d) (seq 0 (length l)) = l.
Proof.
  induction l as [|x l IH]; [reflexivity|].
  cbn [length seq map nth]. f_equal.
  rewrite <- seq_shift, map_map. exact IH.
Qed.

(** The bytes the capture pipeline makes of 16-bit samples, sent as base64
    and handed to the playback pipeline at a rate every implementation
    supports (8000 to 96000; the component asks for 24000), give the same
    samples back, each over 32768, in one channel. *)
Theorem pcm_round_trip (samples : list Z) (rate : Z) :
  samples ≠ [] ->
  Forall (fun v => -32768 <= v < 32768)%Z samples ->
  (8000 <= rate <= 96000)%Z ->
  exists payload audioBuffer,
    encode (uint8_view samples) = Ok payload /\
    rbind (decode payload) (fun bytes => decodeAudioData bytes rate 1) = Ok audioBuffer /\
    channelData audioBuffer = [map (fun v => (inject_Z v / 32768)%Q) samples] /\
    frames audioBuffer = length samples.
Proof.
  intros Hne Hrange Hrate.
  destruct (encode_decode (uint8_view samples)) as (payload & Henc & Hdec).
  exists payload. rewrite Hdec. cbn [rbind]. unfold decodeAudioData.
  rewrite (int16_uint8_view samples Hrange). cbn [rbind]. rewrite Nat.div_1_r.
  destruct samples as [|v samples]; [contradiction|].
  cbn [length Nat.eqb orb]. rewrite (proj2 (Z.leb_gt rate 0)) by lia.
  eexists. split; [exact Henc|]. split; [reflexivity|].
  cbn [channelData frames]. split; [|reflexivity].
  change (S (length samples)) with (length (v :: samples)).
  cbn [seq map]. f_equal.
  transitivity (map (fun x => (inject_Z x / 32768)%Q)
                  (map (fun i => nth i (v :: samples) 0%Z)
                     (seq 0 (length (v :: samples)))));
    [|now rewrite map_nth_seq].
  rewrite map_map. apply map_ext. intros i. now rewrite Nat.mul_1_r, Nat.add_0_r.
Qed.

Lemma pcm_round_trip_witness :
  exists payload audioBuffer,
    encode (uint8_view [16384%Z; (-32768)%Z]) = Ok payload /\
    rbind (decode payload) (fun bytes => decodeAudioData bytes 24000 1) = Ok audioBuffer /\
    channelData audioBuffer = [[(16384 # 1) / 32768; (-32768 # 1) / 32768]%Q] /\
    frames audioBuffer = 2%nat.
Proof.
  apply (pcm_round_trip [16384%Z; (-32768)%Z] 24000).
  - discriminate.
  - repeat constructor; lia.
  - lia.
Defined.

(** ** Playback after an interruption, and the speaking timer *)

Lemma onmessage_decodes now message s audioBuffer :
  decoded message = Some (Ok audioBuffer) ->
  onmessage now message s = (Ok tt, (onmessage now message s).2).
Proof.
  intros Hdec. rewrite onmessage_eq. cbv zeta. rewrite onmessage_audio_eq, Hdec.
  now destruct (outputAudioContextRef _).
Qed.

Lemma Qmax_zero now : (0 < now)%Q -> Qmax 0 now = now.
Proof.
  intros H. apply Qlt_alt in H. unfold Qmax, GenericMinMax.gmax.
  destruct (0 ?= now)%Q eqn:E; try reflexivity; unfold Qcompare in E, H; congruence.
Qed.

(** After the user interrupts the speech, the next chunk is started at the
    clock's current time (a running clock reads more than zero), not behind the
    audio that was discarded. *)
Theorem playback_restarts_at_clock s now message audioBuffer :
  (0 < now)%Q ->
  decoded message = Some (Ok audioBuffer) ->
  interrupted message = false ->
  is_Some (outputAudioContextRef s) ->
  scheduled (onmessage now message (handleInterruptSpeech s).2).2
  = scheduled (handleInterruptSpeech s).2 ++ [(now, duration audioBuffer)] /\
  nextStartTimeRef (onmessage now message (handleInterruptSpeech s).2).2
  = (now + duration audioBuffer)%Q.
Proof.
  intros Hnow Hdec Hint Hctx. rewrite handleInterruptSpeech_eq. cbn [snd].
  set (s1 := set_aiSpeakingTimerRef _ (interrupt s)).
  assert (Hctx1 : is_Some (outputAudioContextRef s1)) by exact Hctx.
  destruct (onmessage_schedule now message s1 _ Hint Hctx1
              (onmessage_decodes now message s1 audioBuffer Hdec)) as (Hs & Hc & _).
  unfold chunk_of in Hs, Hc. cbn [fst snd] in Hs, Hc. rewrite Hdec in Hs, Hc.
  cbn [plan plan_cursor] in Hs, Hc.
  change (nextStartTimeRef s1) with 0%Q in Hs, Hc.
  rewrite (Qmax_zero now Hnow) in Hs, Hc. split; assumption.
Qed.

Lemma playback_restarts_at_clock_witness :
  nextStartTimeRef
    (onmessage (3 # 1)%Q (with_audio two_samples no_content)
       (handleInterruptSpeech speaking_session).2).2
  = ((3 # 1) + (inject_Z 2 / inject_Z 24000))%Q.
Proof.
  assert (Hnow : (0 < 3 # 1)%Q) by (vm_compute; reflexivity).
  assert (Hdec : decoded (with_audio two_samples no_content)
                 = Some (Ok {| numberOfChannels := 1; frames := 2; bufferRate := 24000;
                               channelData := [[(0 # 1) / 32768; (32767 # 1) / 32768]%Q] |}))
    by (vm_compute; reflexivity).
  assert (Hctx : is_Some (outputAudioContextRef speaking_session))
    by (exists {| ctxId := 2; sampleRate := 24000; ctxState := running |};
        vm_compute; reflexivity).
  exact (proj2 (playback_restarts_at_clock speaking_session (3 # 1)%Q _ _
                  Hnow Hdec eq_refl Hctx)).
Defined.

(** The timer that puts the status back to listening is as long as the chunk
    just scheduled, while that chunk ends at the cursor: no earlier than the
    timer, and strictly later whenever earlier audio is still queued. *)
Theorem speaking_timer_is_chunk_long now message s audioBuffer :
  decoded message = Some (Ok audioBuffer) ->
  interrupted message = false ->
  is_Some (outputAudioContextRef s) ->
  timeouts (since s (onmessage now message s).2) = [(duration audioBuffer * 1000)%Q] /\
  (now + duration audioBuffer <= nextStartTimeRef (onmessage now message s).2)%Q /\
  ((now < nextStartTimeRef s)%Q ->
   (now + duration audioBuffer < nextStartTimeRef (onmessage now message s).2)%Q).
Proof.
  intros Hdec Hint [ctx Hctx]. rewrite onmessage_eq. cbv zeta.
  rewrite onmessage_audio_eq, Hdec, Hint.
  destruct (text_blocks_quiet message s)
    as (earlier & Hc & _ & Hto & _ & _ & Ho & Hn & _ & Hr).
  cbv zeta in Hc, Ho, Hn, Hr.
  set (s2 := if turnComplete message then _ else _) in *.
  rewrite Ho, Hctx. cbn [snd].
  assert (Hcalls : calls (play audioBuffer (speak now s2)) =
            calls s ++ earlier ++ [SetAIStatus Speaking]
              ++ clear_calls (aiSpeakingTimerRef s)
              ++ [SourceStart {| srcId := fresh s2; buffer := audioBuffer |}
                    (Qmax (nextStartTimeRef s) now);
                  SetTimeout (fresh s2 + 1) (duration audioBuffer * 1000)%Q]).
  { unfold play, speak; fields. rewrite Hc, Hr, Hn, <- !app_assoc. reflexivity. }
  rewrite (since_app s _ _ Hcalls).
  rewrite !timeouts_app, Hto, timeouts_clear. split; [reflexivity|].
  assert (Hcur : nextStartTimeRef (play audioBuffer (speak now s2))
                 = (Qmax (nextStartTimeRef s) now + duration audioBuffer)%Q).
  { unfold play, speak; fields. now rewrite Hn. }
  rewrite Hcur.
  pose proof (Q.le_max_r (nextStartTimeRef s) now) as H1.
  pose proof (Q.le_max_l (nextStartTimeRef s) now) as H2.
  split; [lra|]. intros Hlt. lra.
Qed.

Lemma speaking_timer_is_chunk_long_witness :
  (0 + (inject_Z 2 / inject_Z 24000)
   < nextStartTimeRef (onmessage 0 (with_audio two_samples no_content) speaking_session).2)%Q.
Proof.
  assert (Hdec : decoded (with_audio two_samples no_content)
                 = Some (Ok {| numberOfChannels := 1; frames := 2; bufferRate := 24000;
                               channelData := [[(0 # 1) / 32768; (32767 # 1) / 32768]%Q] |}))
    by (vm_compute; reflexivity).
  assert (Hctx : is_Some (outputAudioContextRef speaking_session))
    by (exists {| ctxId := 2; sampleRate := 24000; ctxState := running |};
        vm_compute; reflexivity).
  assert (Hlt : (0 < nextStartTimeRef speaking_session)%Q) by (vm_compute; reflexivity).
  exact (proj2 (proj2 (speaking_timer_is_chunk_long 0%Q _ speaking_session _
                         Hdec eq_refl Hctx)) Hlt).
Defined.

(** ** The store, the history and the button *)

Lemma flush_store_shape s :
  localStorage (flush s) = localStorage s \/
  exists l, localStorage (flush s) = <[LIVE_CONVO_STORAGE_KEY := Json l]> (localStorage s).
Proof.
  unfold flush, stored_with.
  match goal with |- context [(0 <? length ?l)%nat] => destruct (0 <? length l)%nat end;
    fields; [right; now eexists | now left].
Qed.

Lemma step_store_shape s ev :
  localStorage (step s ev) = localStorage s \/
  exists l, localStorage (step s ev) = <[LIVE_CONVO_STORAGE_KEY := Json l]> (localStorage s).
Proof.
  unfold step. destruct (enabled s ev); [|now left].
  destruct ev as [| |microphone| |now message| | |inputData|id|source]; cbn [handler].
  - destruct (mount_frame s) as (history & store & log & -> & Hstore). fields. exact Hstore.
  - unfold unmount. rewrite cleanup_eq. now left.
  - left. unfold handleControlButtonClick. rewrite bind_gets.
    assert (Hstart : localStorage (startConversation microphone s).2 = localStorage s).
    { destruct microphone as [stream|e].
      - now destruct (startConversation_ok stream s) as (s' & -> & _ & _ & _ & Hl & _).
      - now destruct (startConversation_denied_store e s) as (_ & Hl & _). }
    destruct (aiStatus s); cbn [isSessionActive];
      rewrite ?cleanup_eq, ?handleInterruptSpeech_eq; cbn [snd];
      try exact Hstart; reflexivity.
  - left. now destruct (onopen_effect s) as (s' & -> & _ & _ & _ & _ & _ & _ & _ & _ & _ & Hl).
  - destruct (onmessage_text now message s) as (_ & _ & _ & Hl). cbv zeta in Hl.
    rewrite Hl. destruct (hear_text message s) as (_ & Hh & _).
    destruct (turnComplete message); [|now left].
    rewrite <- Hh. apply flush_store_shape.
  - left. destruct (onerror_eq s) as (s1 & -> & _ & _ & _ & _ & Hl). exact Hl.
  - unfold onclose. rewrite cleanup_eq. now left.
  - left. destruct (onaudioprocess_eq inputData s) as (payload & _ & _ & ->). cbn [snd].
    now destruct (sessionPromiseRef s).
  - left. unfold onSpeakingTimer, setAIStatus. now mrun.
  - left. unfold onended. now rewrite run_modify.
Qed.

(** The component never touches a key of the store other than its own, and
    never removes its own once it is there. *)
Theorem store_only_own_key s evs :
  (forall key, key ≠ LIVE_CONVO_STORAGE_KEY ->
     localStorage (run s evs) !! key = localStorage s !! key) /\
  (is_Some (localStorage s !! LIVE_CONVO_STORAGE_KEY) ->
   is_Some (localStorage (run s evs) !! LIVE_CONVO_STORAGE_KEY)).
Proof.
  revert s. induction evs as [|ev evs IH]; intros s; [now split|].
  cbn [run fold_left]. change (fold_left step evs ?x) with (run x evs).
  destruct (IH (step s ev)) as (Hother & Hown).
  destruct (step_store_shape s ev) as [E | (l & E)]; rewrite E in *.
  - now split.
  - split.
    + intros key Hkey. rewrite Hother by exact Hkey. now apply lookup_insert_ne.
    + intros _. apply Hown. rewrite lookup_insert_eq. now eexists.
Qed.

Lemma store_only_own_key_witness :
  localStorage
    (run (initial {[ "careerCompassQuizHistory"%string := Text (str "[]") ]})
       [Mount; Click (Ok [70%Z]); SessionOpen;
        SessionMessage 0%Q (with_turnComplete (with_input (str "hello") no_content))])
    !! "careerCompassQuizHistory"%string
  = Some (Text (str "[]")).
Proof.
  destruct (store_only_own_key
              (initial {[ "careerCompassQuizHistory"%string := Text (str "[]") ]})
              [Mount; Click (Ok [70%Z]); SessionOpen;
               SessionMessage 0%Q (with_turnComplete (with_input (str "hello") no_content))])
    as (Hother & _).
  rewrite Hother by (vm_compute; discriminate).
  vm_compute. reflexivity.
Defined.

(** A new session does not extend the history, it replaces it; and it does
    not drop the text that was pending when the last session stopped.  After
    [startConversation], the first turn that completes leaves as transcript
    only that turn's entries, made of the text pending before the start and
    the text of the message; a transcript that is not empty is then also what
    the store holds, in place of the earlier history. *)
Theorem restart_replaces_history s stream now message :
  turnComplete message = true ->
  let s1 := (startConversation (Ok stream) s).2 in
  let s2 := (onmessage now message s1).2 in
  transcription s2 =
    turn_entries
      (trim (currentInputTranscriptionRef s ++ default [] (inputTranscription message)))
      (trim (currentOutputTranscriptionRef s ++ default [] (outputTranscription message))) /\
  (transcription s2 ≠ [] ->
   localStorage s2 !! LIVE_CONVO_STORAGE_KEY = Some (Json (transcription s2))).
Proof.
  intros Hturn. cbv zeta.
  assert (Hstart : transcription (startConversation (Ok stream) s).2 = [] /\
                   currentInputTranscriptionRef (startConversation (Ok stream) s).2
                   = currentInputTranscriptionRef s /\
                   currentOutputTranscriptionRef (startConversation (Ok stream) s).2
                   = currentOutputTranscriptionRef s).
  { destruct s as [st er tr ic oc se ms sp so ci co ns ti tm fr ls cs].
    unfold startConversation, setAIStatus, setError, setTranscription, store_effect,
      newAudioContext, startLiveSession, try_catch, when.
    mrun. cbn [length Nat.ltb Nat.leb]. mrun. rewrite bind_lift. mrun.
    cbn [snd]. now norm_state. }
  destruct Hstart as (Ht & Hi & Ho).
  set (s1 := (startConversation (Ok stream) s).2) in *.
  destruct (onmessage_text now message s1) as (Htr & _ & _ & Hl).
  cbv zeta in Htr, Hl. rewrite Hturn in Htr, Hl. rewrite Htr, Hl.
  destruct (flush_text (hear message s1)) as (Hf & _).
  destruct (hear_text message s1) as (Hht & _ & Hhi & Hho).
  split.
  - rewrite Hf, Hht, Hhi, Hho, Ht, Hi, Ho. reflexivity.
  - intros Hne. now apply flush_store.
Qed.

Lemma restart_replaces_history_witness :
  transcription
    (onmessage 0%Q (with_turnComplete (with_input (str "again") no_content))
       (startConversation (Ok [71%Z])
          (run listening_session
             [SessionMessage 0%Q (with_turnComplete (with_input (str "first") no_content));
              SessionMessage 0%Q (with_input (str "once ") no_content);
              Click (Ok [])])).2).2
  = [{| author := You; text := str "once again" |}].
Proof.
  exact (proj1 (restart_replaces_history _ [71%Z] 0%Q
                  (with_turnComplete (with_input (str "again") no_content)) eq_refl)).
Defined.

(** The icon on the button tells what a click does: the stop icon interrupts
    the speech and keeps the session, the crossed microphone tears the session
    down, the microphone starts a conversation; under the spinner the button is
    disabled. *)
Theorem button_icon_matches_click s microphone :
  match getButtonIcon (aiStatus s) with
  | Spinner => enabled s (Click microphone) = false
  | StopIcon =>
      handleControlButtonClick microphone s = handleInterruptSpeech s /\
      aiStatus (handleControlButtonClick microphone s).2 = Listening /\
      sessionPromiseRef (handleControlButtonClick microphone s).2 = sessionPromiseRef s /\
      mediaStreamRef (handleControlButtonClick microphone s).2 = mediaStreamRef s
  | MicOffIcon =>
      handleControlButtonClick microphone s = cleanup s /\
      aiStatus (handleControlButtonClick microphone s).2 = Idle /\
      sessionPromiseRef (handleControlButtonClick microphone s).2 = None
  | MicIcon =>
      handleControlButtonClick microphone s = startConversation microphone s /\
      (forall stream, microphone = Ok stream ->
         aiStatus (handleControlButtonClick microphone s).2 = Connecting /\
         is_Some (sessionPromiseRef (handleControlButtonClick microphone s).2))
  end.
Proof.
  unfold handleControlButtonClick, getButtonIcon. rewrite bind_gets. cbn [enabled].
  destruct (aiStatus s) eqn:Hst; cbn [isSessionActive];
    rewrite ?bool_decide_eq_true_2 by reflexivity;
    rewrite ?bool_decide_eq_false_2 by discriminate;
    rewrite ?bool_decide_eq_true_2 by reflexivity; cbn [negb].
  - split; [reflexivity|]. intros stream ->.
    destruct (startConversation_ok stream s) as (s' & -> & Ha & _ & _ & _ & _ & Hs & _).
    cbn [snd]. rewrite Ha, Hs. split; [reflexivity | now eexists].
  - reflexivity.
  - split; [reflexivity|]. now rewrite cleanup_eq.
  - split; [reflexivity|]. now rewrite cleanup_eq.
  - split; [reflexivity|]. rewrite handleInterruptSpeech_eq. cbn [snd].
    unfold interrupt; fields. auto.
  - split; [reflexivity|]. intros stream ->.
    destruct (startConversation_ok stream s) as (s' & -> & Ha & _ & _ & _ & _ & Hs & _).
    cbn [snd]. rewrite Ha, Hs. split; [reflexivity | now eexists].
Qed.

(** ** What [decode] refuses *)

Lemma strip_padding_keeps c d :
  In c d -> c ≠ Base64.pad -> In c (Base64.strip_padding d).
Proof.
  intros Hin Hc. induction d as [|x r IH]; [contradiction|].
  cbn [Base64.strip_padding].
  destruct (forallb (N.eqb Base64.pad) (x :: r)) eqn:Hall.
  - exfalso. rewrite forallb_forall in Hall. specialize (Hall c Hin).
    apply N.eqb_eq in Hall. congruence.
  - cbn [andb]. destruct Hin as [-> | Hin]; [now left | right; now apply IH].
Qed.

Lemma indices_outside c d :
  In c d -> Base64.index_of c = None -> Base64.indices d = None.
Proof.
  intros Hin Hc. induction d as [|x r IH]; [contradiction|].
  cbn [Base64.indices]. destruct Hin as [-> | Hin].
  - now rewrite Hc.
  - rewrite (IH Hin). now destruct (Base64.index_of x).
Qed.

(** [decode] throws on every text that holds a character outside the base64
    alphabet, other than ASCII white space and the padding sign; and white
    space makes no difference to what it returns. *)
Theorem decode_refuses (base64 : list N) :
  (forall c,
     In c base64 -> Base64.is_ascii_whitespace c = false -> c ≠ Base64.pad ->
     Base64.index_of c = None ->
     decode base64 = Throw InvalidCharacterError) /\
  decode (filter (fun c => Base64.is_ascii_whitespace c = false) base64) = decode base64.
Proof.
  split.
  - intros c Hin Hws Hpad Hout. unfold decode, Base64.atob.
    set (d := filter _ base64).
    assert (Hd : In c d).
    { apply list_elem_of_In, list_elem_of_filter. split; [exact Hws|].
      now apply list_elem_of_In. }
    set (d' := if (length d mod 4 =? 0)%nat then Base64.strip_padding d else d).
    assert (Hd' : In c d').
    { subst d'. destruct (length d mod 4 =? 0)%nat; [now apply strip_padding_keeps | exact Hd]. }
    destruct (length d' mod 4 =? 1)%nat; [reflexivity|].
    now rewrite (indices_outside c d' Hd' Hout).
  - unfold decode, Base64.atob. f_equal. f_equal.
    assert (Hidem : forall l : list N,
              filter (fun c => Base64.is_ascii_whitespace c = false)
                (filter (fun c => Base64.is_ascii_whitespace c = false) l)
              = filter (fun c => Base64.is_ascii_whitespace c = false) l).
    { induction l as [|x l IH]; [reflexivity|].
      rewrite filter_cons. destruct (decide _) as [Hx|Hx]; [|exact IH].
      rewrite filter_cons. destruct (decide _); [|contradiction]. now rewrite IH. }
    now rewrite Hidem.
Qed.

Lemma decode_refuses_witness :
  decode (str "AA-A") = Throw InvalidCharacterError.
Proof.
  apply (proj1 (decode_refuses (str "AA-A")) 45%N).
  - vm_compute. auto.
  - reflexivity.
  - discriminate.
  - reflexivity.
Defined.

(** ** What the transcript pane shows *)

Lemma rendered_app l1 l2 : rendered (l1 ++ l2) = rendered l1 ++ rendered l2.
Proof. apply filter_app. Qed.

Lemma rendered_turn_entries userInput aiOutput :
  rendered (turn_entries userInput aiOutput) = turn_entries userInput aiOutput.
Proof.
  unfold turn_entries. rewrite rendered_app. f_equal.
  - destruct (truthy_string userInput) eqn:E; [|reflexivity].
    unfold rendered. rewrite filter_cons. cbn [text].
    destruct (decide _); [reflexivity | contradiction].
  - destruct (truthy_string aiOutput) eqn:E; [|reflexivity].
    unfold rendered. rewrite filter_cons. cbn [text].
    destruct (decide _); [reflexivity | contradiction].
Qed.

(** The pane hides the entries without text; every entry a completed turn
    appends has one, so the pane shows all of them, after what it showed
    before. *)
Theorem appended_entries_rendered now message s :
  turnComplete message = true ->
  rendered (transcription (onmessage now message s).2)
  = rendered (transcription s)
    ++ turn_entries
         (trim (currentInputTranscriptionRef s ++ default [] (inputTranscription message)))
         (trim (currentOutputTranscriptionRef s ++ default [] (outputTranscription message))).
Proof.
  intros Hturn. destruct (onmessage_text now message s) as (Ht & _). cbv zeta in Ht.
  rewrite Ht, Hturn.
  destruct (flush_text (hear message s)) as (-> & _).
  destruct (hear_text message s) as (-> & _ & -> & ->).
  now rewrite rendered_app, rendered_turn_entries.
Qed.

Lemma appended_entries_rendered_witness :
  rendered
    (transcription
       (onmessage 0%Q (with_turnComplete (with_input (str " hello ") no_content))
          listening_session).2)
  = [{| author := You; text := str "hello" |}].
Proof.
  exact (appended_entries_rendered 0%Q
           (with_turnComplete (with_input (str " hello ") no_content))
           listening_session eq_refl).
Defined.
